(** * Forum client: community creation, community list and post list

    A shallow embedding of the three data-carrying functions of the forum
    web client:

    - [CreateCommunityModal.handleChange] and
      [CreateCommunityModal.handleCreateCommunity]
      (src/components/Modal/CreateCommunity/CreateCommunityModal.tsx),
    - [Communities.getCommunities] (src/pages/communities.tsx),
    - [Posts.getPosts] (the posts component).

    React component state is a record that each handler maps to its
    successor; the hosted document store is an explicit value threaded
    through the calls; what a remote call does when the service cannot be
    reached is an input of the model ([Remote]). *)

From Stdlib Require Import ZArith NArith Ascii String List.
From stdpp Require Import gmap list sorting.

Local Open Scope Z_scope.

(** ** JavaScript strings

    A JavaScript string is a sequence of UTF-16 code units; [.length]
    counts code units and a regular expression without the [u] flag
    matches code units.  [utf16] embeds an ASCII literal. *)

Abbreviation jsstring := (list N).

Definition utf16 (s : string) : jsstring :=
  map N_of_ascii (list_ascii_of_string s).

(** Template-literal interpolation [`${a}${b}`] is concatenation. *)
Definition template (parts : list jsstring) : jsstring := concat parts.

(** ** The hosted document store *)

Module Firestore.

(** What the environment does to one remote call. *)
Inductive Remote :=
| Reachable
| Unreachable (message : jsstring).

(** Document of collection [communities], keyed by community name. *)
Record CommunityDoc := {
  creatorId : option jsstring;
  createdAt : N;
  numberOfMembers : Z;
  privacyType : jsstring
}.

(** Document of [users/<uid>/communitySnippets], keyed by community name. *)
Record SnippetDoc := {
  communityId : jsstring;
  isAdmin : bool
}.

(** Modelled from the spec: the fields of a post document (the type
    [Post] of atoms/postsAtom is not among the sources): owning
    community, creator, creation time, vote tally and content. *)
Record PostDoc := {
  postCommunityId : jsstring;
  postCreatorId : jsstring;
  createTime : N;
  voteStatus : Z;
  title : jsstring
}.

Record Store := {
  communities : gmap jsstring CommunityDoc;
  communitySnippets : gmap (jsstring * jsstring) SnippetDoc;
  posts : gmap jsstring PostDoc;
  serverTime : N
}.

#[global] Instance CommunityDoc_eq_dec : EqDecision CommunityDoc.
Proof. solve_decision. Defined.
#[global] Instance SnippetDoc_eq_dec : EqDecision SnippetDoc.
Proof. solve_decision. Defined.
#[global] Instance PostDoc_eq_dec : EqDecision PostDoc.
Proof. solve_decision. Defined.

(** A write buffered by a transaction.  The [createdAt] field of a
    community write is always the [serverTimestamp()] sentinel, which the
    store replaces by its own clock when the transaction commits. *)
Inductive Write :=
| SetCommunity (name : jsstring) (creator : option jsstring)
               (members : Z) (privacy : jsstring)
| SetSnippet (owner : jsstring) (name : jsstring) (snippet : SnippetDoc).

Definition applyWrite (db : Store) (w : Write) : Store :=
  match w with
  | SetCommunity name creator members privacy =>
      {| communities :=
           <[name := {| creatorId := creator;
                        createdAt := serverTime db;
                        numberOfMembers := members;
                        privacyType := privacy |}]> (communities db);
         communitySnippets := communitySnippets db;
         posts := posts db;
         serverTime := serverTime db |}
  | SetSnippet owner name snippet =>
      {| communities := communities db;
         communitySnippets := <[(owner, name) := snippet]> (communitySnippets db);
         posts := posts db;
         serverTime := serverTime db |}
  end.

Definition applyWrites (ws : list Write) (db : Store) : Store :=
  fold_left applyWrite ws db.

(** What the callback of [runTransaction] does after its read: it throws
    (the transaction is abandoned, nothing is written) or it returns with
    its buffered writes. *)
Inductive TxResult :=
| TxThrow (message : jsstring)
| TxWrites (writes : list Write).

(** [runTransaction(firestore, callback)] for a callback that reads the
    one community document [name]; run without interference, the read,
    the callback and the commit are one step.  The result is the store
    and the message of the error the promise rejects with, if any. *)
Definition runTransaction (net : Remote) (db : Store) (name : jsstring)
    (callback : option CommunityDoc -> TxResult) : Store * option jsstring :=
  match net with
  | Unreachable message => (db, Some message)
  | Reachable =>
      match callback (communities db !! name) with
      | TxThrow message => (db, Some message)
      | TxWrites ws => (applyWrites ws db, None)
      end
  end.

(** A store without documents, at server time [now]. *)
Definition emptyStore (now : N) : Store :=
  {| communities := ∅; communitySnippets := ∅; posts := ∅;
     serverTime := now |}.

(** The two queries the client builds.  [CommunitiesByMembersDesc n] is
    [query(collection(firestore, "communities"),
           orderBy("numberOfMembers", "desc"), limit(n))];
    [PostsOfCommunityByTimeDesc c] is
    [query(collection(firestore, "posts"),
           where("communityId", "==", c), orderBy("createTime", "desc"))]. *)
Inductive Query :=
| CommunitiesByMembersDesc (limitTo : nat)
| PostsOfCommunityByTimeDesc (community : jsstring).

Definition membersDesc (a b : jsstring * CommunityDoc) : Prop :=
  numberOfMembers b.2 <= numberOfMembers a.2.

Definition createTimeDesc (a b : jsstring * PostDoc) : Prop :=
  (createTime b.2 <= createTime a.2)%N.

#[global] Instance membersDesc_dec : RelDecision membersDesc.
Proof. intros a b. unfold membersDesc. apply _. Defined.

#[global] Instance createTimeDesc_dec : RelDecision createTimeDesc.
Proof. intros a b. unfold createTimeDesc. apply _. Defined.

(** The documents [getDocs] resolves with, as (id, data) pairs.  Among
    documents with equal sort keys the order is the store's own: here the
    one the sort leaves them in. *)
Definition communityDocs (db : Store) (limitTo : nat)
    : list (jsstring * CommunityDoc) :=
  take limitTo (merge_sort membersDesc (map_to_list (communities db))).

Definition postDocs (db : Store) (community : jsstring)
    : list (jsstring * PostDoc) :=
  merge_sort createTimeDesc
    (filter (fun d => postCommunityId d.2 = community)
            (map_to_list (posts db))).

End Firestore.

(** Side effects a handler has besides its state updates, in order. *)
Inductive Effect :=
| RunTransaction (name : jsstring)
| GetDocs (q : Firestore.Query)
| RouterPush (path : jsstring)
| HandleClose
| ToggleMenuOpen
| ConsoleLog (label message : jsstring).

(** [useAuthState(auth)]: the signed-in user, if any. *)
Record User := { uid : jsstring }.

(** ** The community creation modal *)

Module CreateCommunityModal.
Import Firestore.

Record State := {
  communityName : jsstring;
  charRemaining : Z;
  communityType : jsstring;
  error : jsstring;
  loading : bool
}.

Definition communityNameLengthLimit : nat := 25.

(** The component's [useState] initial values. *)
Definition initial : State :=
  {| communityName := [];
     charRemaining := Z.of_nat communityNameLengthLimit;
     communityType := utf16 "public";
     error := [];
     loading := false |}.

(** [handleChange], applied to [event.target.value]. *)
Definition handleChange (value : jsstring) (st : State) : State :=
  if (communityNameLengthLimit <? length value)%nat then st
  else {| communityName := value;
          charRemaining :=
            Z.of_nat communityNameLengthLimit - Z.of_nat (length value);
          communityType := communityType st;
          error := error st;
          loading := loading st |}.

(** [onCommunityTypeChange], applied to [event.target.name]. *)
Definition onCommunityTypeChange (name : jsstring) (st : State) : State :=
  {| communityName := communityName st;
     charRemaining := charRemaining st;
     communityType := name;
     error := error st;
     loading := loading st |}.

(** The character class of the regular expression [format]: the space
    and the 32 ASCII punctuation characters (34 is the double quote). *)
Definition formatClass : jsstring :=
  utf16 " `!@#$%^&*()_+-=[]{};':" ++ [34%N] ++ utf16 "\|,.<>/?~".

(** [format.test(s)]: some code unit of [s] is in the class. *)
Definition formatTest (s : jsstring) : bool :=
  existsb (fun c => existsb (N.eqb c) formatClass) s.

Definition msgSpecialCharacters : jsstring :=
  utf16 "Community name can only contain letters and numbers".
Definition msgTooShort : jsstring :=
  utf16 "Community name must be at least 3 characters long".
Definition msgTaken (name : jsstring) : jsstring :=
  template [utf16 "The community "; name;
            utf16 " is already taken. Try a different name! "].

(** The two local checks at the head of [handleCreateCommunity], in the
    order of the source: the message of the first check that rejects the
    name. *)
Definition validate (name : jsstring) : option jsstring :=
  if formatTest name then Some msgSpecialCharacters
  else if (length name <? 3)%nat then Some msgTooShort
  else None.

Definition setError (message : jsstring) (st : State) : State :=
  {| communityName := communityName st;
     charRemaining := charRemaining st;
     communityType := communityType st;
     error := message;
     loading := loading st |}.

Definition setLoading (flag : bool) (st : State) : State :=
  {| communityName := communityName st;
     charRemaining := charRemaining st;
     communityType := communityType st;
     error := error st;
     loading := flag |}.

(** [`${user?.uid}`]: the text of [undefined] when nobody is signed in. *)
Definition uidText (user : option User) : jsstring :=
  match user with
  | Some u => uid u
  | None => utf16 "undefined"
  end.

(** The callback handed to [runTransaction], after its
    [transaction.get(communityDocRef)] returned [communityDoc]. *)
Definition createTransaction (user : option User) (st : State)
    (communityDoc : option CommunityDoc) : TxResult :=
  match communityDoc with
  | Some _ => TxThrow (msgTaken (communityName st))
  | None =>
      TxWrites
        [ SetCommunity (communityName st) (uid <$> user) 1 (communityType st);
          SetSnippet (uidText user) (communityName st)
            {| communityId := communityName st; isAdmin := true |} ]
  end.

(** What follows the awaited transaction, for a component state [st] in
    which the flag is already raised: the rest of the [try] block and the
    final [setLoading(false)] when the promise resolved, the [catch] block
    and the final [setLoading(false)] when it rejected with [message]. *)
Definition settle (st : State) (rejected : option jsstring)
    : State * list Effect :=
  match rejected with
  | None =>
      (setLoading false st,
       [ RouterPush (template [utf16 "community/"; communityName st]);
         HandleClose; ToggleMenuOpen ])
  | Some message =>
      (setLoading false (setLoading false (setError message st)),
       [ ConsoleLog (utf16 "Error: handleCreateCommunity") message ])
  end.

Record Outcome := {
  state : State;
  store : Store;
  effects : list Effect
}.

(** [handleCreateCommunity], for the signed-in [user], the component
    state [st] and the store [db]. *)
Definition handleCreateCommunity (user : option User) (net : Remote)
    (st : State) (db : Store) : Outcome :=
  let st0 := match error st with [] => st | _ :: _ => setError [] st end in
  match validate (communityName st) with
  | Some message =>
      {| state := setError message st0; store := db; effects := [] |}
  | None =>
      let st1 := setLoading true st0 in
      let '(db', rejected) :=
        runTransaction net db (communityName st) (createTransaction user st) in
      let '(st2, after) := settle st1 rejected in
      {| state := st2;
         store := db';
         effects := RunTransaction (communityName st) :: after |}
  end.

(** The component state after a sequence of input-change events, from
    the initial state. *)
Definition afterInputs (values : list jsstring) : State :=
  fold_left (fun st value => handleChange value st) values initial.

(** ASCII digits and letters. *)
Definition isAlnum (c : N) : bool :=
  ((48 <=? c) && (c <=? 57) || (65 <=? c) && (c <=? 90)
   || (97 <=? c) && (c <=? 122))%N.

(** A call that ended in one of the two early returns: one of the two
    validation messages is shown, the store is as it was, there was no
    remote call nor any other effect, and the flag was not touched. *)
Definition failsValidation (st : State) (db : Store) (o : Outcome) : Prop :=
  (error (state o) = msgSpecialCharacters \/ error (state o) = msgTooShort)
  /\ store o = db
  /\ effects o = []
  /\ loading (state o) = loading st.

End CreateCommunityModal.

(** ** The communities page *)

Module Communities.
Import Firestore.

(** [{ id: doc.id, ...doc.data() }] *)
Record Community := {
  id : jsstring;
  data : CommunityDoc
}.

Record State := {
  loading : bool;
  communities : list Community
}.

Definition initial : State := {| loading := false; communities := [] |}.

Definition setLoading (flag : bool) (st : State) : State :=
  {| loading := flag; communities := communities st |}.

Definition setCommunities (cs : list Community) (st : State) : State :=
  {| loading := loading st; communities := cs |}.

Definition ofDoc (d : jsstring * CommunityDoc) : Community :=
  {| id := d.1; data := d.2 |}.

(** [a] comes before [b] when the list is ordered by member count,
    descending. *)
Definition moreMembers (a b : Community) : Prop :=
  numberOfMembers (data b) <= numberOfMembers (data a).

(** [getCommunities(numberOfExtraPosts)] *)
Definition getCommunities (net : Remote) (db : Store)
    (numberOfExtraPosts : nat) (st : State) : State * list Effect :=
  let st1 := setLoading true st in
  let q := CommunitiesByMembersDesc (5 + numberOfExtraPosts) in
  match net with
  | Reachable =>
      let communityDocs := communityDocs db (5 + numberOfExtraPosts) in
      (setLoading false (setCommunities (ofDoc <$> communityDocs) st1),
       [ GetDocs q ])
  | Unreachable message =>
      (setLoading false st1,
       [ GetDocs q;
         ConsoleLog (utf16 "Error: getCommunityRecommendations") message ])
  end.

End Communities.

(** ** The posts component *)

Module Posts.
Import Firestore.

(** [{ id: doc.id, ...doc.data() }] *)
Record Post := {
  id : jsstring;
  data : PostDoc
}.

Record PostVote := {
  postId : jsstring;
  voteValue : Z
}.

(** The state the [usePosts] hook shares.  The component reads its
    fields [posts] and [postVotes]; [others] stands for the fields the
    declaration of the state (not among the sources) has besides. *)
Record PostState (Others : Type) := {
  posts : list Post;
  postVotes : list PostVote;
  others : Others
}.
Arguments posts {Others} _.
Arguments postVotes {Others} _.
Arguments others {Others} _.

Record State (Others : Type) := {
  loading : bool;
  postStateValue : PostState Others
}.
Arguments loading {Others} _.
Arguments postStateValue {Others} _.

Definition setLoading {Others} (flag : bool) (st : State Others)
    : State Others :=
  {| loading := flag; postStateValue := postStateValue st |}.

(** [setPostStateValue(update)] with an updater function. *)
Definition setPostStateValue {Others}
    (update : PostState Others -> PostState Others) (st : State Others)
    : State Others :=
  {| loading := loading st; postStateValue := update (postStateValue st) |}.

Definition ofDoc (d : jsstring * PostDoc) : Post :=
  {| id := d.1; data := d.2 |}.

(** [a] comes before [b] when the list is ordered by creation time,
    descending. *)
Definition newerFirst (a b : Post) : Prop :=
  (createTime (data b) <= createTime (data a))%N.

(** [getPosts()], for the property [communityData.id] of the component. *)
Definition getPosts {Others} (net : Remote) (db : Store)
    (communityId : jsstring) (st : State Others)
    : State Others * list Effect :=
  let st1 := setLoading true st in
  let q := PostsOfCommunityByTimeDesc communityId in
  match net with
  | Reachable =>
      let posts' := ofDoc <$> postDocs db communityId in
      (setLoading false
         (setPostStateValue
            (fun prev => {| posts := posts';
                            postVotes := postVotes prev;
                            others := others prev |}) st1),
       [ GetDocs q ])
  | Unreachable message =>
      (setLoading false st1,
       [ GetDocs q; ConsoleLog (utf16 "Error: getPosts") message ])
  end.

End Posts.

(** ** Two callers racing for one name

    What [runTransaction] does when other clients run transactions at the
    same time is the store's: it reads a snapshot, runs the callback on it,
    and commits the buffered writes only if the document read is still what
    the snapshot showed; otherwise it runs the callback again on a fresh
    read.  A callback that throws ends the transaction at once.  Each of
    these is one step of a caller; a schedule interleaves the steps of two
    callers. *)

Module Concurrent.
Import Firestore CreateCommunityModal.

Inductive Phase :=
| Pending
| Buffered (snapshot : option CommunityDoc) (writes : list Write)
| Settled (rejected : option jsstring).

Definition attempt (name : jsstring)
    (callback : option CommunityDoc -> TxResult)
    (db : Store) (p : Phase) : Store * Phase :=
  match p with
  | Pending =>
      match callback (communities db !! name) with
      | TxThrow message => (db, Settled (Some message))
      | TxWrites ws => (db, Buffered (communities db !! name) ws)
      end
  | Buffered snapshot ws =>
      if decide (communities db !! name = snapshot)
      then (applyWrites ws db, Settled None)
      else (db, Pending)
  | Settled r => (db, Settled r)
  end.

(** A caller of [handleCreateCommunity] that passed validation: who is
    signed in, and the component state the call closed over. *)
Record Caller := {
  user : option User;
  modal : State
}.

Inductive Turn := First | Second.

#[global] Instance Turn_eq_dec : EqDecision Turn.
Proof. solve_decision. Defined.

Record System := {
  db : Store;
  first : Phase;
  second : Phase
}.

Definition start (db0 : Store) : System :=
  {| db := db0; first := Pending; second := Pending |}.

Definition step (a b : Caller) (s : System) (t : Turn) : System :=
  match t with
  | First =>
      let '(db', p) :=
        attempt (communityName (modal a))
                (createTransaction (user a) (modal a)) (db s) (first s) in
      {| db := db'; first := p; second := second s |}
  | Second =>
      let '(db', p) :=
        attempt (communityName (modal b))
                (createTransaction (user b) (modal b)) (db s) (second s) in
      {| db := db'; first := first s; second := p |}
  end.

Definition run (a b : Caller) (schedule : list Turn) (s : System) : System :=
  fold_left (step a b) schedule s.

Definition turns (t : Turn) (schedule : list Turn) : nat :=
  length (filter (fun t' => t' = t) schedule).

(** A caller that has not settled and, if it holds buffered writes,
    holds those its callback made on reading that the name is free. *)
Definition waiting (c : Caller) (p : Phase) : Prop :=
  p = Pending
  \/ exists ws, p = Buffered None ws
                /\ createTransaction (user c) (modal c) None = TxWrites ws.

(** A bound on the steps a caller still takes before it settles, given
    whether the name is taken. *)
Definition rank (taken : bool) (p : Phase) : nat :=
  match p with
  | Settled _ => 0
  | Buffered _ _ => 2
  | Pending => if taken then 1 else 3
  end.

(** The steps of [t'] in one turn of [t]. *)
Definition spent (t t' : Turn) : nat := if decide (t = t') then 1 else 0.

Definition taken (name : jsstring) (s : System) : bool :=
  bool_decide (is_Some (communities (db s) !! name)).

Definition settled (p : Phase) : Prop := exists r, p = Settled r.

Definition won (p : Phase) : Prop := p = Settled None.

Definition lost (name : jsstring) (p : Phase) : Prop :=
  p = Settled (Some (msgTaken name)).

(** The states two callers racing for the name of [a] can be in: the
    name is free and both wait; or one of them has won, the record has
    one member, and the other waits or has been refused. *)
Inductive Inv (a b : Caller) (s : System) : Prop :=
| Inv_open :
    communities (db s) !! communityName (modal a) = None ->
    waiting a (first s) -> waiting b (second s) -> Inv a b s
| Inv_first doc :
    communities (db s) !! communityName (modal a) = Some doc ->
    numberOfMembers doc = 1 ->
    won (first s) ->
    waiting b (second s) \/ lost (communityName (modal a)) (second s) ->
    Inv a b s
| Inv_second doc :
    communities (db s) !! communityName (modal a) = Some doc ->
    numberOfMembers doc = 1 ->
    won (second s) ->
    waiting a (first s) \/ lost (communityName (modal a)) (first s) ->
    Inv a b s.

End Concurrent.

(** ** Sample data *)

Module Sample.
Import Firestore.

Definition community (creator : string) (members : Z) : CommunityDoc :=
  {| creatorId := Some (utf16 creator); createdAt := 1%N;
     numberOfMembers := members; privacyType := utf16 "public" |}.

Definition post (community creator : string) (time : N) : PostDoc :=
  {| postCommunityId := utf16 community; postCreatorId := utf16 creator;
     createTime := time; voteStatus := 0; title := utf16 "hello" |}.

(** Three communities and three posts, two of them in "cats". *)
Definition store : Store :=
  {| communities :=
       <[utf16 "cats" := community "u1" 3]>
         (<[utf16 "dogs" := community "u2" 9]>
            (<[utf16 "owls" := community "u1" 5]> ∅));
     communitySnippets := ∅;
     posts :=
       <[utf16 "p1" := post "cats" "u1" 5]>
         (<[utf16 "p2" := post "dogs" "u2" 7]>
            (<[utf16 "p3" := post "cats" "u2" 9]> ∅));
     serverTime := 10 |}.

Definition votes : list Posts.PostVote :=
  [ {| Posts.postId := utf16 "p1"; Posts.voteValue := 1 |} ].

Definition postsPage : Posts.State unit :=
  {| Posts.loading := false;
     Posts.postStateValue :=
       {| Posts.posts := []; Posts.postVotes := votes; Posts.others := tt |} |}.

End Sample.

(** ** Two callers racing for different names *)

Module Apart.
Import Firestore CreateCommunityModal Concurrent.

(** A caller and the document of its name agree: the name is free and the
    caller waits, or the caller has committed and the document is the
    record it wrote. *)
Definition sound (c : Caller) (p : Phase) (d : Store) : Prop :=
  (communities d !! communityName (modal c) = None /\ waiting c p)
  \/ (won p
      /\ exists doc, communities d !! communityName (modal c) = Some doc
                     /\ numberOfMembers doc = 1
                     /\ creatorId doc = uid <$> user c
                     /\ privacyType doc = communityType (modal c)).

(** A bound on the steps a caller that nobody interferes with still takes
    before it settles. *)
Definition left (p : Phase) : nat :=
  match p with
  | Pending => 2
  | Buffered _ _ => 1
  | Settled _ => 0
  end.

End Apart.

(** ** The modal as its user drives it *)

Module Session.
Import Firestore CreateCommunityModal.

(** What the user does to the modal: types into the name input, ticks a
    type option, presses the create button (signed in as [user] or not,
    with the store answering as [net]). *)
Inductive Event :=
| Input (value : jsstring)
| TypeChange (name : jsstring)
| Create (user : option User) (net : Remote).

Definition step (s : State * Store) (e : Event) : State * Store :=
  match e with
  | Input value => (handleChange value s.1, s.2)
  | TypeChange name => (onCommunityTypeChange name s.1, s.2)
  | Create user net =>
      let o := handleCreateCommunity user net s.1 s.2 in
      (state o, store o)
  end.

Definition run (events : list Event) (s : State * Store) : State * Store :=
  fold_left step events s.

(** [color={charRemaining === 0 ? "red" : "gray.500"}] of the counter. *)
Definition counterColor (st : State) : jsstring :=
  if charRemaining st =? 0 then utf16 "red" else utf16 "gray.500".

(** The [name] properties of the three [CommunityTypeOption]s. *)
Definition typeOptions : list jsstring :=
  [ utf16 "public"; utf16 "restricted"; utf16 "private" ].

(** [isChecked={communityType === name}] *)
Definition isChecked (name : jsstring) (st : State) : bool :=
  bool_decide (communityType st = name).

(** The type options that are rendered checked. *)
Definition checkedOptions (st : State) : list jsstring :=
  filter (fun name => isChecked name st = true) typeOptions.

(** An event the rendered modal can produce: a type change carries the
    name of one of the three options. *)
Definition fromModal (e : Event) : Prop :=
  match e with
  | TypeChange name => name ∈ typeOptions
  | _ => True
  end.

(** What every handler of the modal keeps. *)
Definition steady (st : State) : Prop :=
  (length (communityName st) <= communityNameLengthLimit)%nat
  /\ charRemaining st
     = Z.of_nat communityNameLengthLimit - Z.of_nat (length (communityName st))
  /\ loading st = false.

(** The input values that [handleChange] takes over. *)
Definition accepted (values : list jsstring) : list jsstring :=
  filter (fun value => (length value <= communityNameLengthLimit)%nat) values.

End Session.

(** ** Creation calls in sequence *)

Module History.
Import Firestore CreateCommunityModal.

(** One call of [handleCreateCommunity]: who is signed in, how the store
    answers, and the component state the call reads. *)
Record Call := {
  caller : option User;
  network : Remote;
  form : State
}.

Definition perform (db : Store) (c : Call) : Store :=
  store (handleCreateCommunity (caller c) (network c) (form c) db).

Definition history (calls : list Call) (db : Store) : Store :=
  fold_left perform calls db.

(** The one path of [handleCreateCommunity] on which the transaction
    commits: the name passes the local checks, the store answers, and no
    community has the name. *)
Definition commits (net : Remote) (st : State) (db : Store) : Prop :=
  validate (communityName st) = None
  /\ net = Reachable
  /\ communities db !! communityName st = None.

(** The record a committed creation writes. *)
Definition created (user : option User) (st : State) (db : Store)
    : CommunityDoc :=
  {| creatorId := uid <$> user;
     createdAt := serverTime db;
     numberOfMembers := 1;
     privacyType := communityType st |}.

(** The snippet a creator gets for the community [name]. *)
Definition adminSnippet (name : jsstring) : SnippetDoc :=
  {| communityId := name; isAdmin := true |}.

(** What holds of a store that only creation calls have written. *)
Definition wellFormed (db : Store) : Prop :=
  forall name doc,
    communities db !! name = Some doc ->
    validate name = None
    /\ numberOfMembers doc = 1
    /\ forall creator, creatorId doc = Some creator ->
         communitySnippets db !! (creator, name) = Some (adminSnippet name).

End History.

(** ** The communities page as its user drives it *)

Module Page.
Import Firestore Communities.

(** The two call sites of [getCommunities]: the mount effect calls
    [getCommunities(0)], the button "View More" calls [getCommunities(5)]. *)
Inductive Trigger := Mount | ViewMore.

Definition extraPosts (t : Trigger) : nat :=
  match t with Mount => 0 | ViewMore => 5 end.

(** A load that has completed: what triggered it, how the store answered
    and what the store held. *)
Record Load := {
  trigger : Trigger;
  answer : Remote;
  held : Store
}.

Definition load (st : State) (l : Load) : State :=
  (getCommunities (answer l) (held l) (extraPosts (trigger l)) st).1.

Definition loads (ls : list Load) (st : State) : State :=
  fold_left load ls st.

(** [getCommunities] cut at its [await]: what runs before the request is
    sent, and what runs when the response arrives. *)
Inductive Response :=
| Resolved (docs : list (jsstring * CommunityDoc))
| Rejected (message : jsstring).

Definition getDocs (net : Remote) (db : Store) (limitTo : nat) : Response :=
  match net with
  | Reachable => Resolved (communityDocs db limitTo)
  | Unreachable message => Rejected message
  end.

Definition getCommunitiesBegin (numberOfExtraPosts : nat) (st : State)
    : State * list Effect :=
  (setLoading true st,
   [ GetDocs (CommunitiesByMembersDesc (5 + numberOfExtraPosts)) ]).

Definition getCommunitiesEnd (r : Response) (st : State)
    : State * list Effect :=
  match r with
  | Resolved docs =>
      (setLoading false (setCommunities (ofDoc <$> docs) st), [])
  | Rejected message =>
      (setLoading false st,
       [ ConsoleLog (utf16 "Error: getCommunityRecommendations") message ])
  end.

(** The lists that the responses that succeeded carry, in the order of
    their arrival. *)
Definition resolved (rs : list Response) : list (list Community) :=
  omap (fun r => match r with
                 | Resolved docs => Some (ofDoc <$> docs)
                 | Rejected _ => None
                 end) rs.

(** Requests are sent for the limits [ns], one after the other, before
    any response arrives; then the responses [rs] arrive. *)
Definition overlapped (ns : list nat) (rs : list Response) (st : State)
    : State :=
  fold_left (fun st r => (getCommunitiesEnd r st).1) rs
    (fold_left (fun st n => (getCommunitiesBegin n st).1) ns st).

End Page.

(** ** What the posts component renders *)

Module PostsView.
Import Firestore Posts.

(** The properties handed to one [PostItem]. *)
Record PostItemProps := {
  key : jsstring;
  post : Post;
  userIsCreator : bool;
  userVoteValue : option Z
}.

Inductive View :=
| Loader
| Items (items : list PostItemProps).

(** [user?.uid === item.creatorId] *)
Definition isCreator (user : option User) (item : Post) : bool :=
  bool_decide (uid <$> user = Some (postCreatorId (data item))).

(** [postVotes.find((vote) => vote.postId === item.id)?.voteValue] *)
Definition voteOf (votes : list PostVote) (item : Post) : option Z :=
  voteValue <$> List.find (fun vote => bool_decide (postId vote = id item)) votes.

Definition render {Others} (user : option User) (st : State Others) : View :=
  if loading st then Loader
  else Items
         ((fun item =>
             {| key := id item;
                post := item;
                userIsCreator := isCreator user item;
                userVoteValue := voteOf (postVotes (postStateValue st)) item |})
            <$> posts (postStateValue st)).

End PostsView.

(** * Properties *)

(** ** Name input and validation *)

Section Validation.
Import Firestore CreateCommunityModal.

Lemma handleChange_bounded value st :
  (length (communityName st) <= communityNameLengthLimit)%nat ->
  (length (communityName (handleChange value st))
   <= communityNameLengthLimit)%nat.
Proof.
  intros Hst. unfold handleChange.
  destruct (communityNameLengthLimit <? length value)%nat eqn:Hlen; simpl.
  - exact Hst.
  - apply Nat.ltb_ge in Hlen. exact Hlen.
Qed.

Lemma fold_handleChange_bounded values st :
  (length (communityName st) <= communityNameLengthLimit)%nat ->
  (length (communityName
             (fold_left (fun st value => handleChange value st) values st))
   <= communityNameLengthLimit)%nat.
Proof.
  revert st. induction values as [|value values IH]; intros st Hst; simpl.
  - exact Hst.
  - apply IH, handleChange_bounded, Hst.
Qed.

(** C6: after any sequence of input-change events the stored community
    name has at most 25 code units; an input value longer than 25 is
    rejected and leaves the whole component state as it was, and a value
    of at most 25 becomes the stored name. *)
Theorem name_limit_enforced_on_input (values : list jsstring) (value : jsstring) :
  let st := afterInputs values in
  (length (communityName st) <= 25)%nat
  /\ ((25 < length value)%nat -> handleChange value st = st)
  /\ ((length value <= 25)%nat ->
      communityName (handleChange value st) = value).
Proof.
  simpl. split; [|split].
  - apply fold_handleChange_bounded. simpl. apply Nat.le_0_l.
  - intros Hlong. unfold handleChange.
    apply Nat.ltb_lt in Hlong.
    change communityNameLengthLimit with 25%nat. now rewrite Hlong.
  - intros Hshort. unfold handleChange.
    apply Nat.ltb_ge in Hshort.
    change communityNameLengthLimit with 25%nat. now rewrite Hshort.
Qed.

Lemma name_limit_enforced_on_input_witness :
  let long := utf16 "abcdefghijklmnopqrstuvwxyz" in
  let st := afterInputs [utf16 "abc"; long; utf16 "abcd"] in
  communityName st = utf16 "abcd"
  /\ handleChange long st = st
  /\ communityName (handleChange (utf16 "forum") st) = utf16 "forum".
Proof.
  intros long st.
  destruct (name_limit_enforced_on_input
              [utf16 "abc"; long; utf16 "abcd"] long) as (_ & Hrej & _).
  destruct (name_limit_enforced_on_input
              [utf16 "abc"; long; utf16 "abcd"] (utf16 "forum"))
    as (_ & _ & Hacc).
  split; [reflexivity|]. split.
  - apply Hrej. vm_compute. lia.
  - apply Hacc. vm_compute. lia.
Defined.

Lemma validate_None name :
  validate name = None <->
  formatTest name = false /\ (3 <= length name)%nat.
Proof.
  unfold validate.
  destruct (formatTest name); [intuition discriminate|].
  destruct (length name <? 3)%nat eqn:Hlen.
  - apply Nat.ltb_lt in Hlen. split; [discriminate|]. intros [_ H]. lia.
  - apply Nat.ltb_ge in Hlen. tauto.
Qed.

Lemma isAlnum_not_in_class c :
  isAlnum c = true -> existsb (N.eqb c) formatClass = false.
Proof.
  intros Hc. apply not_true_is_false. intros Hin.
  apply existsb_exists in Hin as (x & Hx & Heq).
  apply N.eqb_eq in Heq. subst x.
  vm_compute in Hx.
  repeat (destruct Hx as [<-|Hx]; [vm_compute in Hc; discriminate|]).
  exact Hx.
Qed.

Lemma alnum_formatTest name :
  forallb isAlnum name = true -> formatTest name = false.
Proof.
  induction name as [|c name IH]; [reflexivity|].
  change (forallb isAlnum (c :: name))
    with (isAlnum c && forallb isAlnum name).
  change (formatTest (c :: name))
    with (existsb (N.eqb c) formatClass || formatTest name).
  intros [Hc Hname]%andb_prop.
  rewrite (isAlnum_not_in_class c Hc). exact (IH Hname).
Qed.

End Validation.

(** ** Community creation *)

Section Creation.
Import Firestore CreateCommunityModal.

Lemma handleCreateCommunity_invalid user net st db message :
  validate (communityName st) = Some message ->
  handleCreateCommunity user net st db =
    {| state :=
         setError message
           (match error st with [] => st | _ :: _ => setError [] st end);
       store := db;
       effects := [] |}.
Proof. intros Hv. unfold handleCreateCommunity. now rewrite Hv. Qed.

Lemma handleCreateCommunity_valid user net st db :
  validate (communityName st) = None ->
  handleCreateCommunity user net st db =
    let st1 :=
      setLoading true
        (match error st with [] => st | _ :: _ => setError [] st end) in
    let r := runTransaction net db (communityName st)
               (createTransaction user st) in
    {| state := (settle st1 r.2).1;
       store := r.1;
       effects := RunTransaction (communityName st) :: (settle st1 r.2).2 |}.
Proof.
  intros Hv. unfold handleCreateCommunity. rewrite Hv. simpl.
  destruct (runTransaction net db (communityName st)
              (createTransaction user st)) as [db' rejected]. simpl.
  now destruct (settle _ rejected).
Qed.

Lemma loading_cleared_error st :
  loading (match error st with [] => st | _ :: _ => setError [] st end)
  = loading st.
Proof. now destruct (error st). Qed.

Lemma error_cleared st :
  error (match error st with [] => st | _ :: _ => setError [] st end) = [].
Proof. now destruct (error st) eqn:E. Qed.

Lemma name_cleared_error st :
  communityName
    (match error st with [] => st | _ :: _ => setError [] st end)
  = communityName st.
Proof. now destruct (error st). Qed.

(** C4: a call ends in a validation error, with no remote call and no
    write, exactly when the name matches the forbidden-character pattern
    or is shorter than 3; a name of 3 to 25 letters and digits passes
    validation and the transaction is attempted. *)
Theorem validation_error_iff (user : option User) (net : Remote)
    (st : State) (db : Store) :
  let name := communityName st in
  let o := handleCreateCommunity user net st db in
  (failsValidation st db o <->
     formatTest name = true \/ (length name < 3)%nat)
  /\ ((3 <= length name <= 25)%nat -> forallb isAlnum name = true ->
      validate name = None
      /\ head (effects o) = Some (RunTransaction name)
      /\ ~ failsValidation st db o).
Proof.
  intros name o.
  assert (Hpass : validate name = None ->
                  head (effects o) = Some (RunTransaction name)
                  /\ ~ failsValidation st db o).
  { intros Hv. subst o.
    rewrite (handleCreateCommunity_valid user net st db Hv).
    split; [reflexivity|].
    intros (_ & _ & Heff & _). discriminate Heff. }
  split.
  - split.
    + intros Hfail.
      destruct (validate name) eqn:Hv.
      * unfold validate in Hv. fold name in Hv.
        destruct (formatTest name); [now left|].
        destruct (length name <? 3)%nat eqn:Hlen; [|discriminate].
        right. now apply Nat.ltb_lt.
      * now destruct (Hpass eq_refl) as [_ Hnot].
    + intros Hbad.
      assert (Hv : exists message, validate name = Some message
                     /\ (message = msgSpecialCharacters
                         \/ message = msgTooShort)).
      { unfold validate. destruct (formatTest name) eqn:Hfmt.
        - eexists; split; [reflexivity|now left].
        - destruct Hbad as [Hbad|Hbad]; [discriminate|].
          apply Nat.ltb_lt in Hbad. rewrite Hbad.
          eexists; split; [reflexivity|now right]. }
      destruct Hv as (message & Hv & Hmsg). subst o.
      rewrite (handleCreateCommunity_invalid user net st db message Hv).
      unfold failsValidation; simpl.
      rewrite loading_cleared_error. tauto.
  - intros [Hmin _] Halnum.
    assert (Hv : validate name = None).
    { apply validate_None. split; [|exact Hmin].
      now apply alnum_formatTest. }
    split; [exact Hv|]. exact (Hpass Hv).
Qed.

Lemma validation_error_iff_witness :
  let st := handleChange (utf16 "abc123") initial in
  let o := handleCreateCommunity (Some {| uid := utf16 "u1" |}) Reachable
             st (emptyStore 7) in
  validate (communityName st) = None
  /\ head (effects o) = Some (RunTransaction (utf16 "abc123"))
  /\ ~ failsValidation st (emptyStore 7) o.
Proof.
  intros st o.
  destruct (validation_error_iff (Some {| uid := utf16 "u1" |}) Reachable
              st (emptyStore 7)) as [_ Hpass].
  apply Hpass.
  - vm_compute. lia.
  - vm_compute. reflexivity.
Defined.

(** What the pattern does reject: every name with a printable ASCII
    character that is neither a letter nor a digit. *)
Lemma printable_ascii_in_class c :
  (32 <= c <= 126)%N -> isAlnum c = false ->
  existsb (N.eqb c) formatClass = true.
Proof.
  intros Hc Hna.
  assert (Hall : forallb (fun n => isAlnum (N.of_nat n)
                                   || existsb (N.eqb (N.of_nat n)) formatClass)
                   (seq 32 95) = true) by (vm_compute; reflexivity).
  rewrite forallb_forall in Hall.
  specialize (Hall (N.to_nat c)).
  rewrite N2Nat.id, Hna in Hall. apply Hall.
  apply in_seq. lia.
Qed.

Lemma ascii_punctuation_rejected name c :
  In c name -> (32 <= c <= 126)%N -> isAlnum c = false ->
  validate name = Some msgSpecialCharacters.
Proof.
  intros Hin Hc Hna. unfold validate.
  assert (Hfmt : formatTest name = true).
  { apply existsb_exists. exists c. split; [exact Hin|].
    now apply printable_ascii_in_class. }
  now rewrite Hfmt.
Qed.

(** C5, evaluated: a name with a tab character and a name in curly
    quotes, none of them a letter or a digit, pass both local checks; the
    transaction runs and the community is created under that name. *)
Theorem non_alphanumeric_names_accepted :
  let tabbed := utf16 "ab" ++ [9%N] in
  let quoted := [8220%N] ++ utf16 "ab" ++ [8221%N] in
  let u := Some {| uid := utf16 "u1" |} in
  let record := {| creatorId := Some (utf16 "u1"); createdAt := 7%N;
                   numberOfMembers := 1; privacyType := utf16 "public" |} in
  let o := handleCreateCommunity u Reachable (handleChange tabbed initial)
             (emptyStore 7) in
  let o' := handleCreateCommunity u Reachable (handleChange quoted initial)
              (emptyStore 7) in
  forallb isAlnum tabbed = false
  /\ validate tabbed = None
  /\ effects o = [ RunTransaction tabbed;
                   RouterPush (utf16 "community/" ++ tabbed);
                   HandleClose; ToggleMenuOpen ]
  /\ error (state o) = []
  /\ communities (store o) !! tabbed = Some record
  /\ forallb isAlnum quoted = false
  /\ validate quoted = None
  /\ error (state o') = []
  /\ communities (store o') !! quoted = Some record.
Proof. vm_compute. repeat split; reflexivity. Qed.

End Creation.

Section Transaction.
Import Firestore CreateCommunityModal.

Lemma runTransaction_existing user net st db existing :
  communities db !! communityName st = Some existing ->
  (runTransaction net db (communityName st) (createTransaction user st)).1
  = db.
Proof.
  intros Hex. unfold runTransaction.
  destruct net; [|reflexivity]. now rewrite Hex.
Qed.

(** C1: when a community document keyed by the name exists, the
    transaction callback throws the name-taken error and the call writes
    nothing: the store after the call is the store before it, so neither
    a community record nor a snippet is written and the existing
    community keeps its fields.  When the call reaches the transaction
    and the store answers, the name-taken message is shown and the flag
    is lowered. *)
Theorem existing_name_conflicts (user : option User) (net : Remote)
    (st : State) (db : Store) (existing : CommunityDoc) :
  let name := communityName st in
  let o := handleCreateCommunity user net st db in
  communities db !! name = Some existing ->
  createTransaction user st (communities db !! name)
    = TxThrow (msgTaken name)
  /\ store o = db
  /\ communities (store o) !! name = Some existing
  /\ (validate name = None -> net = Reachable ->
      error (state o) = msgTaken name
      /\ loading (state o) = false
      /\ effects o =
           [ RunTransaction name;
             ConsoleLog (utf16 "Error: handleCreateCommunity")
                        (msgTaken name) ]).
Proof.
  intros name o Hex.
  assert (Hstore : store o = db).
  { subst o. destruct (validate name) as [message|] eqn:Hv.
    - now rewrite (handleCreateCommunity_invalid _ _ _ _ _ Hv).
    - rewrite (handleCreateCommunity_valid _ _ _ _ Hv). simpl.
      now apply runTransaction_existing with existing. }
  split; [now rewrite Hex|]. split; [exact Hstore|].
  split; [now rewrite Hstore|].
  intros Hv ->. subst o.
  rewrite (handleCreateCommunity_valid _ _ _ _ Hv).
  unfold runTransaction. fold name. rewrite Hex. simpl. auto.
Qed.

(** The scenario of C1: "abc123" is created as public; a second creation
    of "abc123" as restricted is refused and the community stays public. *)
Lemma existing_name_conflicts_witness :
  let u := Some {| uid := utf16 "u1" |} in
  let st := handleChange (utf16 "abc123") initial in
  let db := store (handleCreateCommunity u Reachable st (emptyStore 7)) in
  let st' := onCommunityTypeChange (utf16 "restricted") st in
  let o := handleCreateCommunity u Reachable st' db in
  error (state o) = msgTaken (utf16 "abc123")
  /\ store o = db
  /\ privacyType <$> communities (store o) !! utf16 "abc123"
     = Some (utf16 "public").
Proof.
  intros u st db st' o.
  destruct (existing_name_conflicts u Reachable st' db
              {| creatorId := Some (utf16 "u1"); createdAt := 7%N;
                 numberOfMembers := 1; privacyType := utf16 "public" |})
    as (_ & Hstore & Hdoc & Hmsg).
  - vm_compute. reflexivity.
  - destruct Hmsg as (Herr & _); [vm_compute; reflexivity|reflexivity|].
    split; [exact Herr|]. split; [exact Hstore|].
    fold o in Hdoc.
    change (communityName st') with (utf16 "abc123") in Hdoc.
    now rewrite Hdoc.
Defined.

(** C3: a call by a signed-in user with a valid name that is not yet
    taken runs one transaction whose callback buffers two writes, and the
    commit applies both: the community record under the name, with the
    caller as creator, the store's clock as creation time, one member and
    the chosen privacy type, and the caller's snippet under the name, with
    that community id and the admin flag set.  No other document changes;
    the caller is then sent to the community's page. *)
Theorem fresh_name_is_created (u : User) (st : State) (db : Store) :
  let name := communityName st in
  let o := handleCreateCommunity (Some u) Reachable st db in
  let record := {| creatorId := Some (uid u);
                   createdAt := serverTime db;
                   numberOfMembers := 1;
                   privacyType := communityType st |} in
  let snippet := {| communityId := name; isAdmin := true |} in
  validate name = None ->
  communities db !! name = None ->
  createTransaction (Some u) st (communities db !! name)
    = TxWrites [ SetCommunity name (Some (uid u)) 1 (communityType st);
                 SetSnippet (uid u) name snippet ]
  /\ communities (store o) = <[name := record]> (communities db)
  /\ communitySnippets (store o)
     = <[(uid u, name) := snippet]> (communitySnippets db)
  /\ posts (store o) = posts db
  /\ effects o = [ RunTransaction name;
                  RouterPush (utf16 "community/" ++ name);
                  HandleClose; ToggleMenuOpen ]
  /\ error (state o) = []
  /\ loading (state o) = false.
Proof.
  intros name o record snippet Hv Hfresh. subst o.
  rewrite (handleCreateCommunity_valid _ _ _ _ Hv).
  unfold runTransaction. fold name. rewrite Hfresh. simpl.
  rewrite name_cleared_error, error_cleared. fold name.
  unfold template. simpl. rewrite app_nil_r.
  repeat split; reflexivity.
Qed.

Lemma fresh_name_is_created_witness :
  let u := {| uid := utf16 "u1" |} in
  let st := onCommunityTypeChange (utf16 "private")
              (handleChange (utf16 "abc123") initial) in
  let o := handleCreateCommunity (Some u) Reachable st (emptyStore 7) in
  communities (store o) !! utf16 "abc123"
    = Some {| creatorId := Some (utf16 "u1"); createdAt := 7%N;
              numberOfMembers := 1; privacyType := utf16 "private" |}
  /\ communitySnippets (store o) !! (utf16 "u1", utf16 "abc123")
     = Some {| communityId := utf16 "abc123"; isAdmin := true |}.
Proof.
  intros u st o.
  destruct (fresh_name_is_created u st (emptyStore 7))
    as (_ & Hc & Hs & _).
  - vm_compute. reflexivity.
  - vm_compute. reflexivity.
  - fold o in Hc, Hs. rewrite Hc, Hs.
    split; apply lookup_insert_eq.
Defined.

End Transaction.

(** ** The store's queries *)

Section Queries.
Import Firestore.

#[local] Instance membersDesc_total : Total membersDesc.
Proof. intros a b. unfold membersDesc. lia. Qed.

#[local] Instance membersDesc_trans : Transitive membersDesc.
Proof. intros a b c. unfold membersDesc. lia. Qed.

#[local] Instance createTimeDesc_total : Total createTimeDesc.
Proof. intros a b. unfold createTimeDesc. lia. Qed.

#[local] Instance createTimeDesc_trans : Transitive createTimeDesc.
Proof. intros a b c. unfold createTimeDesc. lia. Qed.

Lemma communityDocs_sorted db n :
  StronglySorted membersDesc (communityDocs db n).
Proof.
  unfold communityDocs.
  apply StronglySorted_app_1_l
    with (l2 := drop n (merge_sort membersDesc (map_to_list (communities db)))).
  rewrite take_drop. apply StronglySorted_merge_sort; apply _.
Qed.

Lemma communityDocs_length db n :
  length (communityDocs db n) = min n (size (communities db)).
Proof.
  unfold communityDocs. rewrite length_take.
  now rewrite merge_sort_Permutation, length_map_to_list.
Qed.

Lemma communityDocs_elem_of db n name doc :
  (name, doc) ∈ communityDocs db n -> communities db !! name = Some doc.
Proof.
  unfold communityDocs. intros Hin.
  apply elem_of_map_to_list.
  rewrite <- (merge_sort_Permutation membersDesc).
  apply elem_of_take in Hin as (i & Hi & _).
  eapply list_elem_of_lookup_2, Hi.
Qed.

(** The documents a limit leaves out have no more members than those it
    keeps. *)
Lemma communityDocs_top db n name doc kept :
  communities db !! name = Some doc ->
  (name, doc) ∉ communityDocs db n ->
  kept ∈ communityDocs db n ->
  numberOfMembers doc <= numberOfMembers kept.2.
Proof.
  unfold communityDocs. intros Hdoc Hout Hkept.
  set (sorted := merge_sort membersDesc (map_to_list (communities db))) in *.
  assert (Hall : (name, doc) ∈ take n sorted ++ drop n sorted).
  { rewrite take_drop. unfold sorted.
    rewrite (merge_sort_Permutation membersDesc).
    now apply elem_of_map_to_list. }
  apply elem_of_app in Hall as [Hin|Hin]; [contradiction|].
  assert (Hs : StronglySorted membersDesc (take n sorted ++ drop n sorted)).
  { rewrite take_drop. apply StronglySorted_merge_sort; apply _. }
  exact (StronglySorted_app_1_elem_of _ _ _ _ _ Hs Hkept Hin).
Qed.

Lemma postDocs_sorted db community :
  StronglySorted createTimeDesc (postDocs db community).
Proof. unfold postDocs. apply StronglySorted_merge_sort; apply _. Qed.

Lemma postDocs_elem_of db community key doc :
  (key, doc) ∈ postDocs db community <->
  posts db !! key = Some doc /\ postCommunityId doc = community.
Proof.
  unfold postDocs. rewrite (merge_sort_Permutation createTimeDesc).
  rewrite list_elem_of_filter, elem_of_map_to_list. simpl. tauto.
Qed.

Lemma postDocs_NoDup db community : NoDup (postDocs db community).
Proof.
  unfold postDocs. rewrite (merge_sort_Permutation createTimeDesc).
  apply NoDup_filter, NoDup_map_to_list.
Qed.

End Queries.

(** ** The community list *)

Section CommunityList.
Import Firestore Communities.

#[local] Instance ofDoc_inj : Inj (=) (=) ofDoc.
Proof. intros [i d] [i' d'] [=]. simpl in *. congruence. Qed.

Lemma ofDoc_sorted docs :
  StronglySorted membersDesc docs ->
  StronglySorted moreMembers (ofDoc <$> docs).
Proof. apply StronglySorted_fmap. intros x y H. exact H. Qed.

(** C7: a successful [getCommunities n] issues the one query on the
    community collection, by member count descending, limited to [5 + n];
    the list held afterwards is that query's result whatever was held
    before: at most [5 + n] communities of the collection, ordered by
    member count descending, the ones left out having no more members
    than the ones kept.  [getCommunities 0] followed by
    [getCommunities 5] holds the result of the query limited to 10. *)
Theorem getCommunities_replaces_list (db db' : Store) (n : nat)
    (st st' : State) :
  let r := getCommunities Reachable db n st in
  let second := getCommunities Reachable db' 5
                  (getCommunities Reachable db 0 st).1 in
  r.2 = [ GetDocs (CommunitiesByMembersDesc (5 + n)) ]
  /\ communities r.1 = ofDoc <$> communityDocs db (5 + n)
  /\ communities r.1 = communities (getCommunities Reachable db n st').1
  /\ length (communities r.1) = min (5 + n) (size (Firestore.communities db))
  /\ StronglySorted moreMembers (communities r.1)
  /\ (forall c, c ∈ communities r.1 ->
        Firestore.communities db !! id c = Some (data c))
  /\ (forall name doc c,
        Firestore.communities db !! name = Some doc ->
        ofDoc (name, doc) ∉ communities r.1 ->
        c ∈ communities r.1 ->
        numberOfMembers doc <= numberOfMembers (data c))
  /\ second.2 = [ GetDocs (CommunitiesByMembersDesc 10) ]
  /\ communities second.1 = ofDoc <$> communityDocs db' 10
  /\ (length (communities second.1) <= 10)%nat
  /\ StronglySorted moreMembers (communities second.1).
Proof.
  simpl. repeat split.
  - rewrite length_fmap. apply communityDocs_length.
  - apply ofDoc_sorted, communityDocs_sorted.
  - intros c Hc. apply list_elem_of_fmap in Hc as ([name doc] & -> & Hin).
    simpl. eapply communityDocs_elem_of, Hin.
  - intros name doc c Hdoc Hout Hc.
    apply list_elem_of_fmap in Hc as (kept & -> & Hin). simpl.
    eapply communityDocs_top; [exact Hdoc| |exact Hin].
    intros Hkept. apply Hout. now apply list_elem_of_fmap_2.
  - rewrite length_fmap, communityDocs_length. lia.
  - apply ofDoc_sorted, communityDocs_sorted.
Qed.

End CommunityList.

Section CommunityListExample.
Import Firestore Communities.

Lemma getCommunities_replaces_list_witness :
  let r := getCommunities Reachable Sample.store 0 initial in
  id <$> communities r.1 = [utf16 "dogs"; utf16 "owls"; utf16 "cats"]
  /\ Firestore.communities Sample.store !! utf16 "dogs"
     = Some (Sample.community "u2" 9).
Proof.
  intros r.
  destruct (getCommunities_replaces_list Sample.store Sample.store 0
              initial initial) as (_ & _ & _ & _ & _ & Hin & _).
  split; [vm_compute; reflexivity|].
  apply (Hin {| id := utf16 "dogs"; data := Sample.community "u2" 9 |}).
  apply list_elem_of_In. vm_compute. left. reflexivity.
Defined.

End CommunityListExample.

(** ** The post list *)

Section PostList.
Import Firestore Posts.
Context {Others : Type}.

#[local] Instance post_ofDoc_inj : Inj (=) (=) ofDoc.
Proof. intros [i d] [i' d'] [=]. simpl in *. congruence. Qed.

(** C8: a successful [getPosts] for a community identifier issues the one
    query on the post collection filtered by that identifier and ordered
    by creation time descending, without a limit; the posts held
    afterwards are exactly the documents of the collection whose
    community identifier is the requested one, each once, ordered by
    creation time descending. *)
Theorem getPosts_filters_by_community (db : Store) (communityId : jsstring)
    (st : State Others) :
  let r := getPosts Reachable db communityId st in
  let held := posts (postStateValue r.1) in
  r.2 = [ GetDocs (PostsOfCommunityByTimeDesc communityId) ]
  /\ (forall p, p ∈ held <->
        Firestore.posts db !! id p = Some (data p)
        /\ postCommunityId (data p) = communityId)
  /\ held ≡ₚ ofDoc <$> filter (fun d => postCommunityId d.2 = communityId)
                         (map_to_list (Firestore.posts db))
  /\ NoDup held
  /\ StronglySorted newerFirst held.
Proof.
  simpl. split; [reflexivity|]. split; [|split; [|split]].
  - intros [key doc]. simpl. rewrite <- postDocs_elem_of.
    change {| id := key; data := doc |} with (ofDoc (key, doc)).
    apply list_elem_of_fmap_inj, _.
  - unfold postDocs. now rewrite (merge_sort_Permutation createTimeDesc).
  - apply NoDup_fmap_2; [apply _|apply postDocs_NoDup].
  - apply StronglySorted_fmap with (R1 := createTimeDesc);
      [intros x y H; exact H|apply postDocs_sorted].
Qed.

(** C10: [getPosts] leaves every field of the shared post state other
    than [posts] as it was: the vote records and the remaining fields are
    those of the state before the call.  When the fetch succeeds [posts]
    is the query's result, and when it fails [posts] is unchanged too. *)
Theorem getPosts_keeps_other_fields (net : Remote) (db : Store)
    (communityId : jsstring) (st : State Others) :
  let st' := (getPosts net db communityId st).1 in
  postVotes (postStateValue st') = postVotes (postStateValue st)
  /\ others (postStateValue st') = others (postStateValue st)
  /\ match net with
     | Reachable =>
         posts (postStateValue st') = ofDoc <$> postDocs db communityId
     | Unreachable _ => postStateValue st' = postStateValue st
     end.
Proof. destruct net; simpl; auto. Qed.

End PostList.

Section PostListExample.
Import Firestore Posts.

Lemma getPosts_filters_by_community_witness :
  let r := getPosts Reachable Sample.store (utf16 "cats") Sample.postsPage in
  id <$> posts (postStateValue r.1) = [utf16 "p3"; utf16 "p1"]
  /\ {| id := utf16 "p2"; data := Sample.post "dogs" "u2" 7 |}
       ∉ posts (postStateValue r.1).
Proof.
  intros r. split; [vm_compute; reflexivity|].
  destruct (getPosts_filters_by_community Sample.store (utf16 "cats")
              Sample.postsPage) as (_ & Hiff & _).
  intros Hin. apply Hiff in Hin as [_ Hcommunity]. discriminate Hcommunity.
Defined.

End PostListExample.

(** ** Racing creations *)

Section Race.
Import Firestore CreateCommunityModal Concurrent.

(** Run alone, the two steps of a transaction are [runTransaction]. *)
Lemma attempt_alone name callback db0 :
  let '(db1, p1) := attempt name callback db0 Pending in
  let '(db2, p2) := attempt name callback db1 p1 in
  exists r, p2 = Settled r
            /\ runTransaction Reachable db0 name callback = (db2, r).
Proof.
  unfold attempt, runTransaction.
  destruct (callback (communities db0 !! name)) as [message|ws].
  - now exists (Some message).
  - rewrite decide_True by reflexivity. now exists None.
Qed.

Lemma createTransaction_writes_communities u st db ws :
  createTransaction u st None = TxWrites ws ->
  communities (applyWrites ws db) !! communityName st
  = Some {| creatorId := uid <$> u; createdAt := serverTime db;
            numberOfMembers := 1; privacyType := communityType st |}.
Proof.
  intros [= <-]. unfold applyWrites. simpl. apply lookup_insert_eq.
Qed.

Context (a b : Caller).
Context (same_name : communityName (modal b) = communityName (modal a)).

#[local] Abbreviation name := (communityName (modal a)).
#[local] Abbreviation Inv := (Inv a b).

Lemma attempt_waiting_free c p s :
  communityName (modal c) = name ->
  communities (db s) !! name = None ->
  waiting c p ->
  let r := attempt (communityName (modal c))
             (createTransaction (user c) (modal c)) (db s) p in
  (waiting c r.2 /\ r.1 = db s /\ p = Pending)
  \/ (won r.2 /\ exists doc, communities r.1 !! name = Some doc
                            /\ numberOfMembers doc = 1).
Proof.
  intros Hname Hfree [->|(ws & -> & Hws)]; simpl; rewrite Hname, Hfree.
  - left. simpl. split; [|split; reflexivity].
    right. eexists. split; reflexivity.
  - right. rewrite decide_True by reflexivity. simpl.
    split; [reflexivity|].
    rewrite <- Hname.
    rewrite (createTransaction_writes_communities _ _ _ _ Hws).
    eexists. split; reflexivity.
Qed.

Lemma attempt_waiting_taken c p s doc :
  communityName (modal c) = name ->
  communities (db s) !! name = Some doc ->
  waiting c p \/ lost name p ->
  let r := attempt (communityName (modal c))
             (createTransaction (user c) (modal c)) (db s) p in
  r.1 = db s /\ (waiting c r.2 \/ lost name r.2).
Proof.
  intros Hname Htaken [[->|(ws & -> & Hws)]| ->]; simpl;
    rewrite ?Hname, ?Htaken.
  - simpl. split; [reflexivity|]. right. unfold lost.
    unfold createTransaction. now rewrite Hname.
  - rewrite decide_False by discriminate. simpl.
    split; [reflexivity|]. left. now left.
  - split; [reflexivity|]. now right.
Qed.

Lemma attempt_won c p s :
  won p ->
  attempt (communityName (modal c))
    (createTransaction (user c) (modal c)) (db s) p = (db s, p).
Proof. now intros ->. Qed.

Lemma Inv_step s t : Inv s -> Inv (step a b s t).
Proof.
  intros [Hfree Ha Hb|doc Hdoc Hone Hwon Hother|doc Hdoc Hone Hwon Hother];
    destruct t; unfold step.
  - destruct (attempt_waiting_free a (first s) s eq_refl Hfree Ha)
      as [(Hw & Hdb & _)|(Hw & doc & Hdoc & Hone)];
      destruct (attempt _ _ (db s) (first s)) as [db' p]; simpl in *.
    + subst db'. now apply Inv_open.
    + apply Inv_first with doc; simpl; auto.
  - destruct (attempt_waiting_free b (second s) s same_name Hfree Hb)
      as [(Hw & Hdb & _)|(Hw & doc & Hdoc & Hone)];
      destruct (attempt _ _ (db s) (second s)) as [db' p]; simpl in *.
    + subst db'. now apply Inv_open.
    + apply Inv_second with doc; simpl; auto.
  - rewrite (attempt_won a _ s Hwon). apply Inv_first with doc; auto.
  - destruct (attempt_waiting_taken b (second s) s doc same_name Hdoc Hother)
      as [Hdb Hp].
    destruct (attempt _ _ (db s) (second s)) as [db' p]; simpl in *.
    subst db'. apply Inv_first with doc; auto.
  - destruct (attempt_waiting_taken a (first s) s doc eq_refl Hdoc Hother)
      as [Hdb Hp].
    destruct (attempt _ _ (db s) (first s)) as [db' p]; simpl in *.
    subst db'. apply Inv_second with doc; auto.
  - rewrite (attempt_won b _ s Hwon). apply Inv_second with doc; auto.
Qed.

Lemma Inv_run schedule s : Inv s -> Inv (run a b schedule s).
Proof.
  revert s. induction schedule as [|t schedule IH]; intros s Hs; simpl.
  - exact Hs.
  - apply IH, Inv_step, Hs.
Qed.

Lemma waiting_not_settled c p : waiting c p -> ~ settled p.
Proof. intros [->|(ws & -> & _)] [r Hr]; discriminate. Qed.

Lemma Inv_settled s :
  Inv s -> settled (first s) -> settled (second s) ->
  (won (first s) /\ lost name (second s)
   \/ lost name (first s) /\ won (second s))
  /\ exists doc, communities (db s) !! name = Some doc
                 /\ numberOfMembers doc = 1.
Proof.
  intros [Hfree Ha Hb|doc Hdoc Hone Hwon Hother|doc Hdoc Hone Hwon Hother]
    H1 H2.
  - now apply waiting_not_settled in Ha.
  - destruct Hother as [Hw|Hlost];
      [now apply waiting_not_settled in Hw|].
    split; [now left|now exists doc].
  - destruct Hother as [Hw|Hlost];
      [now apply waiting_not_settled in Hw|].
    split; [now right|now exists doc].
Qed.

Lemma taken_Some s doc :
  communities (db s) !! name = Some doc -> taken name s = true.
Proof. intros H. unfold taken. rewrite H. reflexivity. Qed.

Lemma taken_None s :
  communities (db s) !! name = None -> taken name s = false.
Proof. intros H. unfold taken. rewrite H. reflexivity. Qed.

Lemma rank_taken_le t p : (rank true p <= rank t p)%nat.
Proof. destruct t, p; simpl; lia. Qed.

Lemma rank_le_3 t p : (rank t p <= 3)%nat.
Proof. destruct t, p; simpl; lia. Qed.

Lemma rank_zero_settled t p : rank t p = 0%nat -> settled p.
Proof.
  destruct p, t; simpl; try discriminate; intros _; now eexists.
Qed.

(** A step of a caller lowers its own rank and does not raise the
    other's. *)
Ltac spent_eval :=
  try change (spent First First) with 1%nat;
  try change (spent Second Second) with 1%nat;
  try change (spent First Second) with 0%nat;
  try change (spent Second First) with 0%nat.

Lemma rank_step s t :
  Inv s ->
  (rank (taken name (step a b s t)) (first (step a b s t))
   <= rank (taken name s) (first s) - spent t First)%nat
  /\ (rank (taken name (step a b s t)) (second (step a b s t))
      <= rank (taken name s) (second s) - spent t Second)%nat.
Proof.
  destruct s as [d p1 p2].
  intros [Hfree Ha Hb|doc Hdoc Hone Hwon Hother|doc Hdoc Hone Hwon Hother];
    unfold taken; simpl in *.
  - rewrite Hfree.
    destruct t; spent_eval; unfold step; simpl.
    + destruct Ha as [->|(ws & -> & Hws)]; simpl; rewrite Hfree; simpl.
      * rewrite Hfree.
        destruct Hb as [->|(ws' & -> & _)]; simpl; lia.
      * rewrite (createTransaction_writes_communities _ _ _ _ Hws).
        destruct Hb as [->|(ws' & -> & _)]; simpl; lia.
    + destruct Hb as [->|(ws & -> & Hws)]; simpl;
        rewrite same_name, Hfree; simpl.
      * rewrite Hfree.
        destruct Ha as [->|(ws' & -> & _)]; simpl; lia.
      * rewrite <- same_name.
        rewrite (createTransaction_writes_communities _ _ _ _ Hws).
        destruct Ha as [->|(ws' & -> & _)]; simpl; lia.
  - rewrite Hdoc. unfold won in Hwon. subst p1.
    destruct t; spent_eval; unfold step; simpl.
    + rewrite Hdoc. simpl. lia.
    + destruct Hother as [[->|(ws & -> & Hws)]| ->]; simpl;
        rewrite ?same_name, ?Hdoc; simpl;
        rewrite ?decide_False by discriminate; simpl;
        rewrite ?Hdoc; simpl; lia.
  - rewrite Hdoc. unfold won in Hwon. subst p2.
    destruct t; spent_eval; unfold step; simpl.
    + destruct Hother as [[->|(ws & -> & Hws)]| ->]; simpl;
        rewrite ?Hdoc; simpl;
        rewrite ?decide_False by discriminate; simpl;
        rewrite ?Hdoc; simpl; lia.
    + rewrite Hdoc. simpl. lia.
Qed.

Lemma turns_cons t t' schedule :
  turns t (t' :: schedule) = (spent t' t + turns t schedule)%nat.
Proof.
  unfold turns, spent. rewrite filter_cons.
  now destruct (decide (t' = t)).
Qed.

Lemma rank_run schedule s :
  Inv s ->
  (rank (taken name (run a b schedule s)) (first (run a b schedule s))
   <= rank (taken name s) (first s) - turns First schedule)%nat
  /\ (rank (taken name (run a b schedule s)) (second (run a b schedule s))
      <= rank (taken name s) (second s) - turns Second schedule)%nat.
Proof.
  revert s. induction schedule as [|t schedule IH]; intros s Hs.
  - unfold turns. simpl. lia.
  - change (run a b (t :: schedule) s)
      with (run a b schedule (step a b s t)).
    rewrite !turns_cons.
    destruct (IH (step a b s t) (Inv_step s t Hs)) as [IH1 IH2].
    destruct (rank_step s t Hs) as [H1 H2]. lia.
Qed.

Lemma Inv_start db0 :
  communities db0 !! name = None -> Inv (start db0).
Proof. intros Hfree. apply Inv_open; simpl; [exact Hfree| |]; now left. Qed.

End Race.

(** C2: two callers run the creation transaction for the same name, free
    at the start, their steps interleaved in any order.  Whenever both have
    settled, one of them committed and the other was refused with the
    name-taken error, and the community record has one member.  Both settle
    in every schedule that gives each of them three turns. *)
Theorem one_creator_wins (a b : Concurrent.Caller) (db0 : Firestore.Store)
    (schedule : list Concurrent.Turn) :
  let name := CreateCommunityModal.communityName (Concurrent.modal a) in
  let s := Concurrent.run a b schedule (Concurrent.start db0) in
  CreateCommunityModal.communityName (Concurrent.modal b) = name ->
  Firestore.communities db0 !! name = None ->
  (Concurrent.settled (Concurrent.first s) ->
   Concurrent.settled (Concurrent.second s) ->
   (Concurrent.won (Concurrent.first s)
      /\ Concurrent.lost name (Concurrent.second s)
    \/ Concurrent.lost name (Concurrent.first s)
       /\ Concurrent.won (Concurrent.second s))
   /\ exists doc, Firestore.communities (Concurrent.db s) !! name = Some doc
                  /\ Firestore.numberOfMembers doc = 1)
  /\ ((3 <= Concurrent.turns Concurrent.First schedule)%nat ->
      (3 <= Concurrent.turns Concurrent.Second schedule)%nat ->
      Concurrent.settled (Concurrent.first s)
      /\ Concurrent.settled (Concurrent.second s)).
Proof.
  intros name s Hsame Hfree.
  assert (Hstart : Concurrent.Inv a b (Concurrent.start db0))
    by now apply (Inv_start a b).
  split.
  - apply (Inv_settled a b). now apply Inv_run.
  - intros H1 H2.
    destruct (rank_run a b Hsame schedule _ Hstart) as [R1 R2].
    fold s in R1, R2.
    pose proof (rank_le_3 (Concurrent.taken name (Concurrent.start db0))
                  (Concurrent.first (Concurrent.start db0))) as Hfirst.
    pose proof (rank_le_3 (Concurrent.taken name (Concurrent.start db0))
                  (Concurrent.second (Concurrent.start db0))) as Hsecond.
    subst name.
    split;
      apply (rank_zero_settled
               (Concurrent.taken
                  (CreateCommunityModal.communityName (Concurrent.modal a)) s));
      lia.
Qed.

Lemma one_creator_wins_witness :
  let a := {| Concurrent.user := Some {| uid := utf16 "u1" |};
              Concurrent.modal :=
                CreateCommunityModal.handleChange (utf16 "abc123")
                  CreateCommunityModal.initial |} in
  let b := {| Concurrent.user := Some {| uid := utf16 "u2" |};
              Concurrent.modal :=
                CreateCommunityModal.onCommunityTypeChange (utf16 "private")
                  (CreateCommunityModal.handleChange (utf16 "abc123")
                     CreateCommunityModal.initial) |} in
  let schedule := [ Concurrent.First; Concurrent.Second; Concurrent.Second;
                    Concurrent.First; Concurrent.Second; Concurrent.First ] in
  let s := Concurrent.run a b schedule
             (Concurrent.start (Firestore.emptyStore 7)) in
  Concurrent.lost (utf16 "abc123") (Concurrent.first s)
  /\ Concurrent.won (Concurrent.second s)
  /\ Firestore.communities (Concurrent.db s) !! utf16 "abc123"
     = Some {| Firestore.creatorId := Some (utf16 "u2");
               Firestore.createdAt := 7%N;
               Firestore.numberOfMembers := 1;
               Firestore.privacyType := utf16 "private" |}.
Proof.
  intros a b schedule s.
  destruct (one_creator_wins a b (Firestore.emptyStore 7) schedule)
    as [Hsafe Hlive].
  - reflexivity.
  - vm_compute. reflexivity.
  - destruct Hlive as [H1 H2]; [vm_compute; lia|vm_compute; lia|].
    destruct (Hsafe H1 H2) as [[[Hwon _]|[Hlost Hwon]] _].
    + vm_compute in Hwon. discriminate Hwon.
    + split; [exact Hlost|]. split; [exact Hwon|]. vm_compute. reflexivity.
Defined.

(** ** The loading flags *)

(** C9: when [getCommunities] and [getPosts] complete, with the fetched
    list or with a caught error, their loading flag is lowered.  When
    [handleCreateCommunity] completes, its flag is lowered on every path
    through the transaction, committed, refused or failed; its two early
    returns leave the flag as they found it, which is lowered whenever the
    call starts with the flag lowered. *)
Theorem loading_flag_cleared {Others : Type} (net : Firestore.Remote)
    (db : Firestore.Store) (numberOfExtraPosts : nat)
    (page : Communities.State) (communityId : jsstring)
    (postsPage : Posts.State Others) (user : option User)
    (modal : CreateCommunityModal.State) :
  let o := CreateCommunityModal.handleCreateCommunity user net modal db in
  let flag := CreateCommunityModal.loading (CreateCommunityModal.state o) in
  Communities.loading
    (Communities.getCommunities net db numberOfExtraPosts page).1 = false
  /\ Posts.loading (Posts.getPosts net db communityId postsPage).1 = false
  /\ (CreateCommunityModal.validate
        (CreateCommunityModal.communityName modal) = None ->
      flag = false)
  /\ flag = match CreateCommunityModal.validate
                    (CreateCommunityModal.communityName modal) with
            | Some _ => CreateCommunityModal.loading modal
            | None => false
            end
  /\ (CreateCommunityModal.loading modal = false -> flag = false).
Proof.
  intros o flag.
  assert (Hflag : flag = match CreateCommunityModal.validate
                                (CreateCommunityModal.communityName modal) with
                        | Some _ => CreateCommunityModal.loading modal
                        | None => false
                        end).
  { subst flag o.
    destruct (CreateCommunityModal.validate
                (CreateCommunityModal.communityName modal)) as [message|] eqn:Hv.
    - rewrite (handleCreateCommunity_invalid _ _ _ _ _ Hv). simpl.
      apply loading_cleared_error.
    - rewrite (handleCreateCommunity_valid _ _ _ _ Hv). simpl.
      now destruct (Firestore.runTransaction _ _ _ _).2. }
  split; [now destruct net|]. split; [now destruct net|].
  split; [|split]; [|exact Hflag|].
  - intros Hv. now rewrite Hflag, Hv.
  - intros Hlow. rewrite Hflag, Hlow. now destruct (CreateCommunityModal.validate _).
Qed.

Lemma loading_flag_cleared_witness :
  let modal := CreateCommunityModal.handleChange (utf16 "abc123")
                 CreateCommunityModal.initial in
  let o := CreateCommunityModal.handleCreateCommunity
             (Some {| uid := utf16 "u1" |})
             (Firestore.Unreachable (utf16 "unavailable"))
             modal Sample.store in
  CreateCommunityModal.loading (CreateCommunityModal.state o) = false
  /\ CreateCommunityModal.error (CreateCommunityModal.state o)
     = utf16 "unavailable".
Proof.
  intros modal o.
  destruct (loading_flag_cleared (Firestore.Unreachable (utf16 "unavailable"))
              Sample.store 0 Communities.initial (utf16 "cats")
              Sample.postsPage (Some {| uid := utf16 "u1" |}) modal)
    as (_ & _ & Hvalid & _ & Hlow).
  split; [apply Hlow; reflexivity|reflexivity].
Defined.


(** * Further properties *)

(** ** The modal over whole sessions *)

Section ModalSession.
Import Firestore CreateCommunityModal Session.

Lemma handleCreateCommunity_keeps_form user net st db :
  let o := handleCreateCommunity user net st db in
  communityName (state o) = communityName st
  /\ charRemaining (state o) = charRemaining st
  /\ communityType (state o) = communityType st.
Proof.
  simpl. destruct (validate (communityName st)) as [message|] eqn:Hv.
  - rewrite (handleCreateCommunity_invalid _ _ _ _ _ Hv). simpl.
    now destruct (error st).
  - rewrite (handleCreateCommunity_valid _ _ _ _ Hv). simpl.
    destruct (runTransaction _ _ _ _).2; simpl; now destruct (error st).
Qed.

Lemma handleCreateCommunity_loading user net st db :
  loading st = false ->
  loading (state (handleCreateCommunity user net st db)) = false.
Proof.
  intros Hlow. destruct (validate (communityName st)) as [message|] eqn:Hv.
  - rewrite (handleCreateCommunity_invalid _ _ _ _ _ Hv). simpl.
    now rewrite loading_cleared_error.
  - rewrite (handleCreateCommunity_valid _ _ _ _ Hv). simpl.
    now destruct (runTransaction _ _ _ _).2.
Qed.

Lemma steady_step s e : steady s.1 -> steady (step s e).1.
Proof.
  intros (Hlen & Hrem & Hlow). destruct e as [value|name|user net]; simpl.
  - unfold handleChange.
    destruct (communityNameLengthLimit <? length value)%nat eqn:Hv.
    + now split.
    + apply Nat.ltb_ge in Hv. now split.
  - now split.
  - destruct (handleCreateCommunity_keeps_form user net s.1 s.2)
      as (Hn & Hr & _).
    unfold steady. rewrite Hn, Hr.
    split; [exact Hlen|]. split; [exact Hrem|].
    now apply handleCreateCommunity_loading.
Qed.

Lemma steady_run events s : steady s.1 -> steady (run events s).1.
Proof.
  revert s. induction events as [|e events IH]; intros s Hs; simpl.
  - exact Hs.
  - apply IH, steady_step, Hs.
Qed.

Lemma steady_initial (db : Store) : steady (initial, db).1.
Proof. unfold steady. simpl. repeat split; lia. Qed.

(** X1: whatever the user types, ticks and submits, in any order and
    with any answers of the store, the modal afterwards holds a name of at
    most 25 code units, its counter is 25 minus the length of the name
    (between 0 and 25), and its loading flag is lowered. *)
Theorem modal_counter_in_step (events : list Event) (db : Store) :
  let st := (run events (initial, db)).1 in
  (length (communityName st) <= 25)%nat
  /\ charRemaining st = 25 - Z.of_nat (length (communityName st))
  /\ 0 <= charRemaining st <= 25
  /\ loading st = false.
Proof.
  simpl. destruct (steady_run events _ (steady_initial db))
    as (Hlen & Hrem & Hlow).
  change communityNameLengthLimit with 25%nat in *.
  repeat split; try assumption; lia.
Qed.

(** X3: in every state the modal can reach, the counter is shown in red
    exactly when the name has 25 code units. *)
Theorem counter_red_iff_full (events : list Event) (db : Store) :
  let st := (run events (initial, db)).1 in
  counterColor st = utf16 "red" <-> length (communityName st) = 25%nat.
Proof.
  simpl. destruct (steady_run events _ (steady_initial db))
    as (Hlen & Hrem & _).
  change communityNameLengthLimit with 25%nat in *.
  unfold counterColor.
  destruct (charRemaining _ =? 0) eqn:Hzero.
  - apply Z.eqb_eq in Hzero. split; [intros _; lia|reflexivity].
  - apply Z.eqb_neq in Hzero. split; [discriminate|intros; lia].
Qed.

Lemma default_last_cons {A} (d x : A) l :
  default d (last (x :: l)) = default x (last l).
Proof. rewrite last_cons. now destruct (last l). Qed.

Lemma fold_handleChange_name values st :
  communityName (fold_left (fun st value => handleChange value st) values st)
  = default (communityName st) (last (accepted values)).
Proof.
  revert st. induction values as [|value values IH]; intros st; simpl.
  - reflexivity.
  - rewrite IH. unfold accepted. rewrite filter_cons.
    unfold handleChange. destruct (decide _) as [Hok|Hlong].
    + apply Nat.ltb_ge in Hok. rewrite Hok. simpl.
      now rewrite default_last_cons.
    + apply Nat.nle_gt, Nat.ltb_lt in Hlong. now rewrite Hlong.
Qed.

(** X2: after a sequence of input events the stored name is the last
    input value of at most 25 code units, and the empty name if there was
    none; longer values leave no trace. *)
Theorem name_is_last_accepted_input (values : list jsstring) :
  communityName (afterInputs values) = default [] (last (accepted values)).
Proof. unfold afterInputs. now rewrite fold_handleChange_name. Qed.

Lemma type_of_step s e :
  fromModal e -> communityType s.1 ∈ typeOptions ->
  communityType (step s e).1 ∈ typeOptions.
Proof.
  intros He Ht. destruct e as [value|name|user net]; simpl.
  - unfold handleChange. now destruct (_ <? _)%nat.
  - exact He.
  - now destruct (handleCreateCommunity_keeps_form user net s.1 s.2)
      as (_ & _ & ->).
Qed.

Lemma type_of_run events s :
  Forall fromModal events -> communityType s.1 ∈ typeOptions ->
  communityType (run events s).1 ∈ typeOptions.
Proof.
  revert s. induction events as [|e events IH]; intros s Hall Hs; simpl.
  - exact Hs.
  - apply Forall_cons in Hall as [He Hall].
    apply IH; [exact Hall|]. now apply type_of_step.
Qed.

(** X4: as long as type changes come from the three rendered options,
    the modal always renders exactly one of them checked, the one that a
    creation would use as privacy type. *)
Theorem one_type_option_checked (events : list Event) (db : Store) :
  Forall fromModal events ->
  let st := (run events (initial, db)).1 in
  checkedOptions st = [communityType st].
Proof.
  intros Hall st.
  assert (Ht : communityType st ∈ typeOptions).
  { apply type_of_run; [exact Hall|]. simpl. left. }
  unfold checkedOptions, isChecked.
  unfold typeOptions in Ht.
  repeat (apply elem_of_cons in Ht as [->|Ht]; [vm_compute; reflexivity|]).
  now apply elem_of_nil in Ht.
Qed.

Lemma one_type_option_checked_witness :
  let events := [ Input (utf16 "abc123"); TypeChange (utf16 "restricted");
                  Create (Some {| uid := utf16 "u1" |}) Reachable;
                  TypeChange (utf16 "private") ] in
  checkedOptions (run events (initial, emptyStore 7)).1 = [utf16 "private"].
Proof.
  intros events.
  apply (one_type_option_checked events (emptyStore 7)).
  repeat constructor; vm_compute; auto.
Defined.

End ModalSession.

(** ** Creation calls, one after another *)

Section CreationHistory.
Import Firestore CreateCommunityModal History.

Lemma commits_dec net st db : commits net st db \/ ~ commits net st db.
Proof.
  unfold commits.
  destruct (validate (communityName st)); [right; intros (H & _); discriminate|].
  destruct net; [|right; intros (_ & H & _); discriminate].
  destruct (communities db !! communityName st);
    [right; intros (_ & _ & H); discriminate|].
  now left.
Qed.

Lemma committed_outcome user net st db :
  commits net st db ->
  let o := handleCreateCommunity user net st db in
  communities (store o)
    = <[communityName st := created user st db]> (communities db)
  /\ communitySnippets (store o)
     = <[(uidText user, communityName st) := adminSnippet (communityName st)]>
         (communitySnippets db)
  /\ posts (store o) = posts db
  /\ serverTime (store o) = serverTime db
  /\ effects o = [ RunTransaction (communityName st);
                  RouterPush (utf16 "community/" ++ communityName st);
                  HandleClose; ToggleMenuOpen ]
  /\ error (state o) = [].
Proof.
  intros (Hv & -> & Hfree). simpl.
  rewrite (handleCreateCommunity_valid _ _ _ _ Hv).
  unfold runTransaction. rewrite Hfree. simpl.
  rewrite name_cleared_error, error_cleared.
  unfold template. simpl. rewrite app_nil_r.
  repeat split; reflexivity.
Qed.

Lemma uncommitted_outcome user net st db :
  ~ commits net st db ->
  let o := handleCreateCommunity user net st db in
  store o = db
  /\ (effects o = []
      \/ exists message,
           effects o = [ RunTransaction (communityName st);
                         ConsoleLog (utf16 "Error: handleCreateCommunity")
                                    message ]).
Proof.
  intros Hnot. simpl.
  destruct (validate (communityName st)) as [message|] eqn:Hv.
  - rewrite (handleCreateCommunity_invalid _ _ _ _ _ Hv). simpl. auto.
  - rewrite (handleCreateCommunity_valid _ _ _ _ Hv). simpl.
    unfold runTransaction. destruct net as [|message]; simpl.
    + destruct (communities db !! communityName st) eqn:Hdoc; simpl.
      * split; [reflexivity|]. right. now eexists.
      * exfalso. apply Hnot. now split.
    + split; [reflexivity|]. right. now eexists.
Qed.



(** X6: the message the modal shows after a call by a signed-in user is
    fixed by the name, the answer of the store and whether the name is
    taken, and never by the message shown before: the message of the first
    local check that rejects the name; else the message of the failed
    remote call; else the name-taken message; else none. *)
Theorem shown_error_is_determined (u : User) (net : Remote) (st : State)
    (db : Store) (previous : jsstring) :
  let shown :=
    match validate (communityName st) with
    | Some message => message
    | None =>
        match net with
        | Unreachable message => message
        | Reachable =>
            match communities db !! communityName st with
            | Some _ => msgTaken (communityName st)
            | None => []
            end
        end
    end in
  error (state (handleCreateCommunity (Some u) net st db)) = shown
  /\ error (state (handleCreateCommunity (Some u) net
                    (setError previous st) db)) = shown.
Proof.
  assert (Hone : forall st',
             communityName st' = communityName st ->
             error (state (handleCreateCommunity (Some u) net st' db))
             = match validate (communityName st) with
               | Some message => message
               | None =>
                   match net with
                   | Unreachable message => message
                   | Reachable =>
                       match communities db !! communityName st with
                       | Some _ => msgTaken (communityName st)
                       | None => []
                       end
                   end
               end).
  { intros st' Hname. rewrite <- Hname.
    destruct (validate (communityName st')) as [message|] eqn:Hv.
    - now rewrite (handleCreateCommunity_invalid _ _ _ _ _ Hv).
    - rewrite (handleCreateCommunity_valid _ _ _ _ Hv). simpl.
      unfold runTransaction. destruct net as [|message]; simpl.
      + destruct (communities db !! communityName st'); simpl;
          [reflexivity|apply error_cleared].
      + reflexivity. }
  split; apply Hone; reflexivity.
Qed.

End CreationHistory.

Section CreationInvariants.
Import Firestore CreateCommunityModal History.

Lemma perform_cases db c :
  (commits (network c) (form c) db
   /\ communities (perform db c)
      = <[communityName (form c) := created (caller c) (form c) db]>
          (communities db)
   /\ communitySnippets (perform db c)
      = <[(uidText (caller c), communityName (form c))
            := adminSnippet (communityName (form c))]> (communitySnippets db))
  \/ perform db c = db.
Proof.
  unfold perform.
  destruct (commits_dec (network c) (form c) db) as [Hc|Hnot].
  - left. split; [exact Hc|].
    destruct (committed_outcome (caller c) _ _ _ Hc) as (H1 & H2 & _).
    now split.
  - right. now destruct (uncommitted_outcome (caller c) _ _ _ Hnot).
Qed.

Lemma perform_keeps_record db c name doc :
  communities db !! name = Some doc ->
  communities (perform db c) !! name = Some doc.
Proof.
  intros Hdoc.
  destruct (perform_cases db c) as [((_ & _ & Hfree) & Hcom & _)| ->];
    [|exact Hdoc].
  rewrite Hcom, lookup_insert_ne; [exact Hdoc|].
  intros Heq. rewrite Heq in Hfree. congruence.
Qed.

(** X8: a community record, once in the store, is never changed by any
    later sequence of creation calls, whoever makes them, with whatever
    name and type, and however the store answers. *)
Theorem records_are_never_overwritten (calls : list Call) (db : Store)
    (name : jsstring) (doc : CommunityDoc) :
  communities db !! name = Some doc ->
  communities (history calls db) !! name = Some doc.
Proof.
  revert db. induction calls as [|c calls IH]; intros db Hdoc; simpl.
  - exact Hdoc.
  - apply IH. now apply perform_keeps_record.
Qed.

Lemma records_are_never_overwritten_witness :
  let first := {| caller := Some {| uid := utf16 "u1" |};
                  network := Reachable;
                  form := handleChange (utf16 "abc123") initial |} in
  let again := {| caller := Some {| uid := utf16 "u2" |};
                  network := Reachable;
                  form := onCommunityTypeChange (utf16 "private")
                            (handleChange (utf16 "abc123") initial) |} in
  let other := {| caller := Some {| uid := utf16 "u2" |};
                  network := Reachable;
                  form := handleChange (utf16 "xyz789") initial |} in
  communities (history [again; other; again] (perform (emptyStore 7) first))
    !! utf16 "abc123"
  = Some {| creatorId := Some (utf16 "u1"); createdAt := 7%N;
            numberOfMembers := 1; privacyType := utf16 "public" |}.
Proof.
  intros first again other.
  apply records_are_never_overwritten. vm_compute. reflexivity.
Defined.

Lemma wellFormed_perform db c : wellFormed db -> wellFormed (perform db c).
Proof.
  intros Hwf.
  destruct (perform_cases db c) as [((Hv & _ & Hfree) & Hcom & Hsnip)| ->];
    [|exact Hwf].
  intros name doc. rewrite Hcom, Hsnip.
  destruct (decide (communityName (form c) = name)) as [<-|Hne].
  - rewrite lookup_insert_eq. intros [= <-].
    split; [exact Hv|]. split; [reflexivity|].
    intros creator Hcreator. simpl in Hcreator.
    destruct (caller c) as [usr|]; [|discriminate].
    injection Hcreator as <-. apply lookup_insert_eq.
  - rewrite lookup_insert_ne by exact Hne. intros Hdoc.
    destruct (Hwf name doc Hdoc) as (Hvalid & Hone & Hadmin).
    split; [exact Hvalid|]. split; [exact Hone|].
    intros creator Hcreator.
    rewrite lookup_insert_ne by congruence. now apply Hadmin.
Qed.

Lemma wellFormed_history calls db :
  wellFormed db -> wellFormed (history calls db).
Proof.
  revert db. induction calls as [|c calls IH]; intros db Hwf; simpl.
  - exact Hwf.
  - apply IH, wellFormed_perform, Hwf.
Qed.

Lemma wellFormed_empty now : wellFormed (emptyStore now).
Proof. intros name doc Hdoc. simpl in Hdoc. now rewrite lookup_empty in Hdoc. Qed.

(** X9: whatever creation calls are made on an empty store, every name
    under which a community ends up stored passed both local checks: it
    has at least 3 code units and none of them is in the forbidden class. *)
Theorem stored_names_passed_validation (calls : list Call) (now : N)
    (name : jsstring) :
  is_Some (communities (history calls (emptyStore now)) !! name) ->
  validate name = None
  /\ (3 <= length name)%nat
  /\ formatTest name = false.
Proof.
  intros [doc Hdoc].
  destruct (wellFormed_history calls _ (wellFormed_empty now) name doc Hdoc)
    as (Hv & _).
  split; [exact Hv|]. apply validate_None in Hv. tauto.
Qed.

Lemma stored_names_passed_validation_witness :
  let call := {| caller := Some {| uid := utf16 "u1" |};
                 network := Reachable;
                 form := handleChange (utf16 "abc123") initial |} in
  validate (utf16 "abc123") = None
  /\ (3 <= length (utf16 "abc123"))%nat
  /\ formatTest (utf16 "abc123") = false.
Proof.
  intros call.
  apply (stored_names_passed_validation [call] 7).
  eexists. vm_compute. reflexivity.
Defined.

(** X10: whatever creation calls are made on an empty store, every
    stored community has one member, and its creator holds the snippet of
    that community with the admin flag set. *)
Theorem creators_hold_admin_snippets (calls : list Call) (now : N)
    (name : jsstring) (doc : CommunityDoc) :
  let db := history calls (emptyStore now) in
  communities db !! name = Some doc ->
  numberOfMembers doc = 1
  /\ forall creator, creatorId doc = Some creator ->
       communitySnippets db !! (creator, name)
       = Some {| communityId := name; isAdmin := true |}.
Proof.
  intros db Hdoc.
  destruct (wellFormed_history calls _ (wellFormed_empty now) name doc Hdoc)
    as (_ & Hone & Hadmin).
  now split.
Qed.

Lemma creators_hold_admin_snippets_witness :
  let first := {| caller := Some {| uid := utf16 "u1" |};
                  network := Reachable;
                  form := handleChange (utf16 "abc123") initial |} in
  let other := {| caller := Some {| uid := utf16 "u2" |};
                  network := Reachable;
                  form := handleChange (utf16 "xyz789") initial |} in
  let db := history [first; other; first] (emptyStore 7) in
  communitySnippets db !! (utf16 "u2", utf16 "xyz789")
  = Some {| communityId := utf16 "xyz789"; isAdmin := true |}.
Proof.
  intros first other db.
  destruct (creators_hold_admin_snippets [first; other; first] 7
              (utf16 "xyz789")
              {| creatorId := Some (utf16 "u2"); createdAt := 7%N;
                 numberOfMembers := 1; privacyType := utf16 "public" |})
    as (_ & Hadmin).
  - vm_compute. reflexivity.
  - apply Hadmin. reflexivity.
Defined.

(** X7: creations under different names do not get in each other's way:
    when two signed-in users create two different free names one after the
    other, the second call commits too, shows no error, and both records
    and both admin snippets are in the store. *)
Theorem different_names_are_both_created (u u' : User) (st st' : State)
    (db : Store) :
  let o := handleCreateCommunity (Some u) Reachable st db in
  let o' := handleCreateCommunity (Some u') Reachable st' (store o) in
  validate (communityName st) = None ->
  validate (communityName st') = None ->
  communityName st <> communityName st' ->
  communities db !! communityName st = None ->
  communities db !! communityName st' = None ->
  error (state o') = []
  /\ communities (store o') !! communityName st
     = Some (created (Some u) st db)
  /\ communities (store o') !! communityName st'
     = Some (created (Some u') st' db)
  /\ communitySnippets (store o') !! (uid u, communityName st)
     = Some (adminSnippet (communityName st))
  /\ communitySnippets (store o') !! (uid u', communityName st')
     = Some (adminSnippet (communityName st')).
Proof.
  intros o o' Hv Hv' Hne Hfree Hfree'.
  destruct (committed_outcome (Some u) Reachable st db)
    as (Hcom & Hsnip & _ & Htime & _); [now split|].
  fold o in Hcom, Hsnip, Htime.
  destruct (committed_outcome (Some u') Reachable st' (store o))
    as (Hcom' & Hsnip' & _ & _ & _ & Herr).
  { split; [exact Hv'|]. split; [reflexivity|].
    now rewrite Hcom, lookup_insert_ne. }
  fold o' in Hcom', Hsnip', Herr.
  split; [exact Herr|].
  rewrite Hcom', Hsnip', Hcom, Hsnip. simpl.
  split; [|split; [|split]].
  - rewrite lookup_insert_ne by congruence. apply lookup_insert_eq.
  - rewrite lookup_insert_eq. unfold created. now rewrite Htime.
  - rewrite lookup_insert_ne by congruence. apply lookup_insert_eq.
  - apply lookup_insert_eq.
Qed.

Lemma different_names_are_both_created_witness :
  let u := {| uid := utf16 "u1" |} in
  let st := handleChange (utf16 "abc123") initial in
  let st' := handleChange (utf16 "xyz789") initial in
  let o := handleCreateCommunity (Some u) Reachable st (emptyStore 7) in
  let o' := handleCreateCommunity (Some u) Reachable st' (store o) in
  error (state o') = []
  /\ communities (store o') !! utf16 "abc123"
     = Some (created (Some u) st (emptyStore 7)).
Proof.
  intros u st st' o o'.
  destruct (different_names_are_both_created u u st st' (emptyStore 7))
    as (Herr & Hfirst & _);
    [vm_compute; reflexivity|vm_compute; reflexivity|
     vm_compute; discriminate|vm_compute; reflexivity|
     vm_compute; reflexivity|].
  split; [exact Herr|exact Hfirst].
Defined.

End CreationInvariants.

(** ** The communities page over several loads *)

Section PageLoads.
Import Firestore Communities Page.

(** X12: on an unchanged store, a load with a larger limit extends the
    list of a load with a smaller one: the list after [getCommunities n]
    is the first [5 + n] entries of the list after [getCommunities m] for
    [n <= m], so "View More" keeps the communities already shown, in place. *)
Theorem larger_limit_extends_list (db : Store) (n m : nat) (st st' : State) :
  (n <= m)%nat ->
  communities (getCommunities Reachable db n st).1
  = take (5 + n) (communities (getCommunities Reachable db m st').1).
Proof.
  intros Hle. simpl communities.
  rewrite <- fmap_take. unfold communityDocs.
  rewrite take_take. now rewrite Nat.min_l by lia.
Qed.

Lemma larger_limit_extends_list_witness :
  id <$> communities (getCommunities Reachable Sample.store 0 initial).1
  = id <$> take 5 (communities
                    (getCommunities Reachable Sample.store 5 initial).1).
Proof.
  rewrite (larger_limit_extends_list Sample.store 0 5 initial initial);
    [reflexivity|lia].
Defined.

Lemma load_bounded st l :
  (length (communities st) <= 10)%nat ->
  (length (communities (load st l)) <= 10)%nat
  /\ loading (load st l) = false.
Proof.
  intros Hst. unfold load. destruct (answer l); simpl.
  - split; [|reflexivity].
    rewrite length_fmap, communityDocs_length.
    destruct (trigger l); unfold extraPosts; lia.
  - now split.
Qed.

Lemma loads_bounded ls st :
  (length (communities st) <= 10)%nat -> loading st = false ->
  (length (communities (loads ls st)) <= 10)%nat
  /\ loading (loads ls st) = false.
Proof.
  revert st. induction ls as [|l ls IH]; intros st Hlen Hlow; simpl.
  - now split.
  - destruct (load_bounded st l Hlen) as [Hlen' Hlow']. now apply IH.
Qed.

Lemma view_more_again db st k :
  let click := {| trigger := ViewMore; answer := Reachable; held := db |} in
  communities (loads (replicate (S k) click) st)
  = ofDoc <$> communityDocs db 10.
Proof.
  revert st. induction k as [|k IH]; intros st.
  - reflexivity.
  - change (replicate (S (S k)) ?c) with (c :: replicate (S k) c).
    simpl loads. apply IH.
Qed.

(** X13: "View More" is not cumulative.  After the mount load and any
    presses of the button, with any answers of the store, the page holds at
    most 10 communities and its loading flag is lowered; and pressing the
    button any number of times on an unchanged store gives the list that
    one press gives, the result of the query limited to 10. *)
Theorem view_more_stops_at_ten (ls : list Load) (db : Store) (k : nat)
    (st : State) :
  let click := {| trigger := ViewMore; answer := Reachable; held := db |} in
  (length (communities (loads ls initial)) <= 10)%nat
  /\ loading (loads ls initial) = false
  /\ communities (loads (replicate (S k) click) st)
     = communities (load st click)
  /\ communities (load st click) = ofDoc <$> communityDocs db 10.
Proof.
  intros click.
  destruct (loads_bounded ls initial) as [Hlen Hlow];
    [simpl; lia|reflexivity|].
  split; [exact Hlen|]. split; [exact Hlow|].
  split; [|reflexivity]. apply view_more_again.
Qed.

Lemma overlapped_end rs st :
  communities (fold_left (fun st r => (getCommunitiesEnd r st).1) rs st)
  = default (communities st) (last (resolved rs))
  /\ (rs <> [] ->
      loading (fold_left (fun st r => (getCommunitiesEnd r st).1) rs st)
      = false).
Proof.
  revert st. induction rs as [|r rs IH]; intros st.
  - split; [reflexivity|congruence].
  - simpl fold_left. destruct (IH (getCommunitiesEnd r st).1) as [Hlist Hflag].
    split.
    + rewrite Hlist. unfold resolved. simpl omap.
      destruct r as [docs|message]; simpl.
      * now rewrite default_last_cons.
      * reflexivity.
    + intros _. destruct rs as [|r' rs].
      * now destruct r.
      * apply Hflag. discriminate.
Qed.

Lemma begin_keeps_list ns st :
  communities (fold_left (fun st n => (getCommunitiesBegin n st).1) ns st)
  = communities st.
Proof.
  revert st. induction ns as [|n ns IH]; intros st; simpl; [reflexivity|].
  now rewrite IH.
Qed.

(** X15: [getCommunities] is what runs before its [await] followed by
    what runs after it.  When several loads overlap, the list held after
    the responses have arrived is that of the last response that
    succeeded, in the order of arrival and whatever the order of the
    requests (the list held before if none succeeded), and the loading
    flag is lowered as soon as one response has arrived. *)
Theorem overlapping_loads_last_response_wins (ns : list nat)
    (rs : list Response) (net : Remote) (db : Store) (n : nat) (st : State) :
  getCommunities net db n st
    = ((getCommunitiesEnd (getDocs net db (5 + n))
          (getCommunitiesBegin n st).1).1,
       (getCommunitiesBegin n st).2
         ++ (getCommunitiesEnd (getDocs net db (5 + n))
               (getCommunitiesBegin n st).1).2)
  /\ communities (overlapped ns rs st)
     = default (communities st) (last (resolved rs))
  /\ (rs <> [] -> loading (overlapped ns rs st) = false).
Proof.
  split; [now destruct net|].
  unfold overlapped.
  destruct (overlapped_end rs
              (fold_left (fun st n => (getCommunitiesBegin n st).1) ns st))
    as [Hlist Hflag].
  split; [|exact Hflag].
  now rewrite Hlist, begin_keeps_list.
Qed.

Lemma overlapping_loads_last_response_wins_witness :
  let first := getDocs Reachable Sample.store 5 in
  let second := getDocs Reachable (emptyStore 7) 10 in
  let st := overlapped [0%nat; 5%nat] [second; first] initial in
  loading st = false
  /\ id <$> communities st = [utf16 "dogs"; utf16 "owls"; utf16 "cats"].
Proof.
  intros first second st.
  destruct (overlapping_loads_last_response_wins [0%nat; 5%nat]
              [second; first] Reachable Sample.store 0 initial)
    as (_ & Hlist & Hflag).
  split; [apply Hflag; discriminate|].
  fold st in Hlist. rewrite Hlist. vm_compute. reflexivity.
Defined.

End PageLoads.

(** ** Creation and the lists *)

Section Listing.
Import Firestore CreateCommunityModal History.

(** X11: a community that a signed-in user has just created is on the
    communities page after the next successful load, with the record that
    was written, whenever the collection held fewer than [5 + n]
    communities before the creation. *)
Theorem created_community_is_listed (u : User) (st : State) (db : Store)
    (n : nat) (page : Communities.State) :
  let db' := store (handleCreateCommunity (Some u) Reachable st db) in
  validate (communityName st) = None ->
  communities db !! communityName st = None ->
  (size (communities db) < 5 + n)%nat ->
  {| Communities.id := communityName st;
     Communities.data := created (Some u) st db |}
    ∈ Communities.communities
        (Communities.getCommunities Reachable db' n page).1.
Proof.
  intros db' Hv Hfree Hsize.
  destruct (committed_outcome (Some u) Reachable st db)
    as (Hcom & _); [now split|].
  fold db' in Hcom. simpl Communities.communities.
  apply (list_elem_of_fmap_2' Communities.ofDoc _
           (communityName st, created (Some u) st db)); [|reflexivity].
  unfold communityDocs. rewrite take_ge.
  - rewrite (merge_sort_Permutation membersDesc).
    apply elem_of_map_to_list. rewrite Hcom. apply lookup_insert_eq.
  - rewrite (merge_sort_Permutation membersDesc), length_map_to_list, Hcom.
    rewrite map_size_insert_None by exact Hfree. lia.
Qed.

Lemma created_community_is_listed_witness :
  let u := {| uid := utf16 "u9" |} in
  let st := handleChange (utf16 "abc123") initial in
  let db' := store (handleCreateCommunity (Some u) Reachable st Sample.store) in
  {| Communities.id := utf16 "abc123";
     Communities.data := created (Some u) st Sample.store |}
    ∈ Communities.communities
        (Communities.getCommunities Reachable db' 0 Communities.initial).1.
Proof.
  intros u st db'.
  apply (created_community_is_listed u st Sample.store 0 Communities.initial).
  - vm_compute. reflexivity.
  - vm_compute. reflexivity.
  - vm_compute. lia.
Defined.

Lemma communityDocs_ids_NoDup db n : NoDup (communityDocs db n).*1.
Proof.
  unfold communityDocs.
  apply sublist_NoDup
    with (l2 := (merge_sort membersDesc (map_to_list (communities db))).*1).
  - rewrite (merge_sort_Permutation membersDesc).
    apply NoDup_fst_map_to_list.
  - apply fmap_sublist, sublist_take.
Qed.

Lemma postDocs_ids_NoDup db community : NoDup (postDocs db community).*1.
Proof.
  unfold postDocs. rewrite (merge_sort_Permutation createTimeDesc).
  apply sublist_NoDup with (l2 := (map_to_list (posts db)).*1).
  - apply NoDup_fst_map_to_list.
  - apply fmap_sublist, sublist_filter.
Qed.

(** X14: after a successful load no identifier occurs twice, neither in
    the list of communities nor in the list of posts (whose identifiers
    are the keys of the rendered items). *)
Theorem loaded_ids_are_distinct {Others : Type} (db : Store) (n : nat)
    (page : Communities.State) (communityId : jsstring)
    (postsPage : Posts.State Others) :
  NoDup (Communities.id
           <$> Communities.communities
                 (Communities.getCommunities Reachable db n page).1)
  /\ NoDup (Posts.id
             <$> Posts.posts
                   (Posts.postStateValue
                      (Posts.getPosts Reachable db communityId postsPage).1)).
Proof.
  simpl. rewrite <- !list_fmap_compose. split.
  - apply communityDocs_ids_NoDup.
  - apply postDocs_ids_NoDup.
Qed.

End Listing.

(** ** What is rendered after a load of posts *)

Section PostItems.
Import Firestore Posts PostsView.
Context {Others : Type}.

Lemma voteOf_None votes item :
  voteOf votes item = None <->
  forall vote, In vote votes -> postId vote <> id item.
Proof.
  unfold voteOf. split.
  - intros Hnone vote Hin Heq.
    destruct (List.find _ votes) eqn:Hfind; [discriminate|].
    apply (find_none _ _ Hfind) in Hin.
    apply bool_decide_eq_false in Hin. contradiction.
  - intros Hall. destruct (List.find _ votes) as [vote|] eqn:Hfind;
      [|reflexivity].
    apply find_some in Hfind as [Hin Heq].
    apply bool_decide_eq_true in Heq. now destruct (Hall vote Hin).
Qed.

(** X16: once [getPosts] has completed the component shows items, not
    the loader.  After a successful load there is one item per post of the
    requested community, in the order loaded and with pairwise different
    keys; an item is marked as the user's own exactly when a user is signed
    in whose uid is the post's creator; its vote is that of the first vote
    record for the post among those held before the load, and none exactly
    when no record is for the post.  After a failed load the items are
    those of the posts held before. *)
Theorem loaded_posts_are_rendered (user : option User) (net : Remote)
    (db : Store) (communityId : jsstring) (st : State Others) :
  let st' := (getPosts net db communityId st).1 in
  let votes := postVotes (postStateValue st) in
  exists items,
    render user st' = Items items
    /\ post <$> items = posts (postStateValue st')
    /\ Forall (fun i =>
                 key i = id (post i)
                 /\ (userIsCreator i = true <->
                     exists u, user = Some u
                               /\ uid u = postCreatorId (data (post i)))
                 /\ userVoteValue i = voteOf votes (post i)
                 /\ (userVoteValue i = None <->
                     forall vote, In vote votes -> postId vote <> key i))
              items
    /\ match net with
       | Reachable =>
           NoDup (key <$> items)
           /\ Forall (fun i => postCommunityId (data (post i)) = communityId)
                     items
       | Unreachable _ => post <$> items = posts (postStateValue st)
       end.
Proof.
  intros st' votes.
  assert (Hvotes : postVotes (postStateValue st') = votes)
    by (subst st'; now destruct net).
  assert (Hlow : loading st' = false) by (subst st'; now destruct net).
  eexists. unfold render. rewrite Hlow, Hvotes.
  split; [reflexivity|].
  split; [|split].
  - rewrite <- list_fmap_compose. apply list_fmap_id.
  - apply Forall_fmap, Forall_forall. intros item _. simpl.
    split; [reflexivity|]. split; [|split; [reflexivity|apply voteOf_None]].
    unfold isCreator. rewrite bool_decide_eq_true.
    destruct user as [u|]; simpl.
    + split; [intros [= Hu]; now exists u|intros (u' & [= <-] & ->); reflexivity].
    + split; [discriminate|intros (u' & Hu & _); discriminate].
  - subst st'. destruct net as [|message]; simpl.
    + rewrite <- !list_fmap_compose. split.
      * apply postDocs_ids_NoDup.
      * apply Forall_fmap, Forall_forall.
        intros [k doc] Hin. simpl. now apply postDocs_elem_of in Hin.
    + rewrite <- list_fmap_compose. apply list_fmap_id.
Qed.

End PostItems.

(** ** Racing for different names *)

Section RaceApart.
Import Firestore CreateCommunityModal Concurrent Apart.

Lemma createTransaction_writes_elsewhere u st d ws other :
  createTransaction u st None = TxWrites ws ->
  other <> communityName st ->
  communities (applyWrites ws d) !! other = communities d !! other.
Proof.
  intros [= <-] Hne. unfold applyWrites. simpl.
  now rewrite lookup_insert_ne by congruence.
Qed.

Lemma sound_attempt c p d :
  sound c p d ->
  let r := attempt (communityName (modal c))
             (createTransaction (user c) (modal c)) d p in
  sound c r.2 r.1
  /\ (left r.2 <= left p - 1)%nat
  /\ forall other, other <> communityName (modal c) ->
       communities r.1 !! other = communities d !! other.
Proof.
  intros [(Hfree & [->|(ws & -> & Hws)])|(-> & Hdoc)]; simpl.
  - rewrite Hfree. simpl. split; [|split; [lia|reflexivity]].
    left. split; [exact Hfree|]. right. now eexists.
  - rewrite Hfree, decide_True by reflexivity. simpl.
    split; [|split; [lia|]].
    + right. split; [reflexivity|].
      rewrite (createTransaction_writes_communities _ _ _ _ Hws).
      eexists. repeat split; reflexivity.
    + intros other Hne.
      now apply createTransaction_writes_elsewhere with (user c) (modal c).
  - split; [|split; [lia|reflexivity]]. right. now split.
Qed.

Lemma sound_elsewhere c p d d' :
  sound c p d ->
  communities d' !! communityName (modal c)
  = communities d !! communityName (modal c) ->
  sound c p d'.
Proof. unfold sound. intros H ->. exact H. Qed.

Context (a b : Caller).
Context (apart : communityName (modal a) <> communityName (modal b)).

Lemma sound_step s t :
  sound a (first s) (db s) -> sound b (second s) (db s) ->
  sound a (first (step a b s t)) (db (step a b s t))
  /\ sound b (second (step a b s t)) (db (step a b s t))
  /\ (left (first (step a b s t)) <= left (first s) - spent t First)%nat
  /\ (left (second (step a b s t)) <= left (second s) - spent t Second)%nat.
Proof.
  intros Ha Hb. destruct t; unfold step.
  - destruct (sound_attempt a (first s) (db s) Ha) as (Hs & Hl & Hother).
    destruct (attempt _ _ (db s) (first s)) as [d p]. simpl in *.
    change (spent First First) with 1%nat.
    change (spent First Second) with 0%nat.
    split; [exact Hs|]. split; [|lia].
    apply sound_elsewhere with (db s); [exact Hb|].
    apply Hother. congruence.
  - destruct (sound_attempt b (second s) (db s) Hb) as (Hs & Hl & Hother).
    destruct (attempt _ _ (db s) (second s)) as [d p]. simpl in *.
    change (spent Second First) with 0%nat.
    change (spent Second Second) with 1%nat.
    split; [|split; [exact Hs|lia]].
    apply sound_elsewhere with (db s); [exact Ha|].
    apply Hother. congruence.
Qed.

Lemma sound_run schedule s :
  sound a (first s) (db s) -> sound b (second s) (db s) ->
  let s' := run a b schedule s in
  sound a (first s') (db s') /\ sound b (second s') (db s')
  /\ (left (first s') <= left (first s) - turns First schedule)%nat
  /\ (left (second s') <= left (second s) - turns Second schedule)%nat.
Proof.
  revert s. induction schedule as [|t schedule IH]; intros s Ha Hb.
  - unfold turns. simpl. repeat split; try assumption; lia.
  - change (run a b (t :: schedule) s)
      with (run a b schedule (step a b s t)).
    rewrite !turns_cons.
    destruct (sound_step s t Ha Hb) as (Ha' & Hb' & L1 & L2).
    destruct (IH _ Ha' Hb') as (Ha'' & Hb'' & L1' & L2').
    simpl. repeat split; try assumption; lia.
Qed.

End RaceApart.

Lemma sound_not_refused c p d message :
  Apart.sound c p d -> p <> Concurrent.Settled (Some message).
Proof.
  intros [(_ & [->|(ws & -> & _)])|(-> & _)]; discriminate.
Qed.

Lemma sound_settled c p d :
  Apart.sound c p d -> Apart.left p = 0%nat ->
  Concurrent.won p
  /\ exists doc,
       Firestore.communities d
         !! CreateCommunityModal.communityName (Concurrent.modal c) = Some doc
       /\ Firestore.numberOfMembers doc = 1
       /\ Firestore.creatorId doc = uid <$> Concurrent.user c
       /\ Firestore.privacyType doc
          = CreateCommunityModal.communityType (Concurrent.modal c).
Proof.
  intros [(_ & [->|(ws & -> & _)])|Hwon]; simpl; try discriminate.
  intros _. exact Hwon.
Qed.

(** X17: two callers that run the creation transaction for two
    different free names never refuse each other.  In every interleaving
    of their steps none of them is ever refused, and once each has had two
    turns both have committed: each name holds a record of one member with
    its caller as creator and its caller's privacy type. *)
Theorem different_names_never_conflict (a b : Concurrent.Caller)
    (db0 : Firestore.Store) (schedule : list Concurrent.Turn) :
  let na := CreateCommunityModal.communityName (Concurrent.modal a) in
  let nb := CreateCommunityModal.communityName (Concurrent.modal b) in
  let s := Concurrent.run a b schedule (Concurrent.start db0) in
  na <> nb ->
  Firestore.communities db0 !! na = None ->
  Firestore.communities db0 !! nb = None ->
  (forall message,
     Concurrent.first s <> Concurrent.Settled (Some message)
     /\ Concurrent.second s <> Concurrent.Settled (Some message))
  /\ ((2 <= Concurrent.turns Concurrent.First schedule)%nat ->
      (2 <= Concurrent.turns Concurrent.Second schedule)%nat ->
      Concurrent.won (Concurrent.first s)
      /\ Concurrent.won (Concurrent.second s)
      /\ (exists doc,
            Firestore.communities (Concurrent.db s) !! na = Some doc
            /\ Firestore.numberOfMembers doc = 1
            /\ Firestore.creatorId doc = uid <$> Concurrent.user a
            /\ Firestore.privacyType doc
               = CreateCommunityModal.communityType (Concurrent.modal a))
      /\ (exists doc,
            Firestore.communities (Concurrent.db s) !! nb = Some doc
            /\ Firestore.numberOfMembers doc = 1
            /\ Firestore.creatorId doc = uid <$> Concurrent.user b
            /\ Firestore.privacyType doc
               = CreateCommunityModal.communityType (Concurrent.modal b))).
Proof.
  intros na nb s Hne Ha Hb.
  destruct (sound_run a b Hne schedule (Concurrent.start db0))
    as (Sa & Sb & La & Lb).
  { left. split; [exact Ha|now left]. }
  { left. split; [exact Hb|now left]. }
  fold s in Sa, Sb, La, Lb. simpl in La, Lb.
  split.
  - intros message. split; eapply sound_not_refused; eassumption.
  - intros Ta Tb.
    destruct (sound_settled a _ _ Sa) as [Wa Da]; [lia|].
    destruct (sound_settled b _ _ Sb) as [Wb Db]; [lia|].
    repeat split; assumption.
Qed.

Lemma different_names_never_conflict_witness :
  let a := {| Concurrent.user := Some {| uid := utf16 "u1" |};
              Concurrent.modal :=
                CreateCommunityModal.handleChange (utf16 "abc123")
                  CreateCommunityModal.initial |} in
  let b := {| Concurrent.user := Some {| uid := utf16 "u2" |};
              Concurrent.modal :=
                CreateCommunityModal.handleChange (utf16 "xyz789")
                  CreateCommunityModal.initial |} in
  let schedule := [ Concurrent.First; Concurrent.Second; Concurrent.Second;
                    Concurrent.First ] in
  let s := Concurrent.run a b schedule
             (Concurrent.start (Firestore.emptyStore 7)) in
  Concurrent.won (Concurrent.first s) /\ Concurrent.won (Concurrent.second s).
Proof.
  intros a b schedule s.
  destruct (different_names_never_conflict a b (Firestore.emptyStore 7)
              schedule) as (_ & Hboth);
    [vm_compute; discriminate|vm_compute; reflexivity|
     vm_compute; reflexivity|].
  destruct Hboth as (Wa & Wb & _); [vm_compute; lia|vm_compute; lia|].
  now split.
Defined.

(** ** Creation and the posts *)

Section CreationAndPosts.
Import Firestore CreateCommunityModal History.

Lemma perform_keeps_posts db c : posts (perform db c) = posts db.
Proof.
  unfold perform.
  destruct (commits_dec (network c) (form c) db) as [Hc|Hnot].
  - now destruct (committed_outcome (caller c) _ _ _ Hc) as (_ & _ & H & _).
  - now destruct (uncommitted_outcome (caller c) _ _ _ Hnot) as (-> & _).
Qed.

Lemma history_keeps_posts calls db : posts (history calls db) = posts db.
Proof.
  revert db. induction calls as [|c calls IH]; intros db; simpl;
    [reflexivity|].
  now rewrite IH, perform_keeps_posts.
Qed.

(** X18: creation calls never touch the posts: after any sequence of
    them, whatever their outcome, every post list loads as it would have
    loaded before. *)
Theorem creation_never_changes_post_lists {Others : Type}
    (calls : list Call) (db : Store) (net : Remote) (communityId : jsstring)
    (st : Posts.State Others) :
  posts (history calls db) = posts db
  /\ Posts.getPosts net (history calls db) communityId st
     = Posts.getPosts net db communityId st.
Proof.
  pose proof (history_keeps_posts calls db) as Hposts.
  split; [exact Hposts|].
  unfold Posts.getPosts, postDocs. now rewrite Hposts.
Qed.

End CreationAndPosts.
